(** * DK best-ball draft assistant: metric pipeline and draft state

    A shallow embedding of [app_web_fixed.py] (with the places where
    [app_web.py] differs kept in [Module Original]):

    - [process_data], [calculate_live_score], [calculate_stack_score] and
      [calculate_equity] over a column-store model of a pandas DataFrame;
    - the draft handlers of [main] over the session's [drafted_players] set
      and [my_roster] list.

    Python floats are IEEE binary64 and are modelled by the kernel's
    primitive floats, so every arithmetic result below is the value the
    interpreter computes. *)

From Stdlib Require Import ZArith Floats String Bool Lia.
From stdpp Require Import gmap strings list fin_maps sorting.

Set Warnings "-inexact-float".
Local Open Scope string_scope.
Local Open Scope Z_scope.

(** ** Exceptions and results *)

(** The exceptions the modelled code can raise. *)
Inductive exn := TypeError | ValueError | KeyError | OverflowError.

(** The outcome of a Python expression: a value, or a raised exception. *)
Inductive result (A : Type) : Type :=
| Ok (a : A)
| Raise (e : exn).
Arguments Ok {A} a.
Arguments Raise {A} e.

#[export] Instance result_ret : MRet result := fun _ a => Ok a.
#[export] Instance result_bind : MBind result := fun _ _ f m =>
  match m with
  | Ok a => f a
  | Raise e => Raise e
  end.
#[export] Instance result_fmap : FMap result := fun _ _ f m =>
  match m with
  | Ok a => Ok (f a)
  | Raise e => Raise e
  end.

(** [try: m except: h] with a bare [except]: every exception is caught. *)
Definition try_except {A} (m : result A) (h : A) : A :=
  match m with
  | Ok a => a
  | Raise _ => h
  end.

(** Run [f] over a list, stopping at the first exception. *)
Fixpoint mapR {A B} (f : A → result B) (l : list A) : result (list B) :=
  match l with
  | [] => Ok []
  | x :: l' => y ← f x; ys ← mapR f l'; Ok (y :: ys)
  end.

Fixpoint zipR {A B C} (f : A → B → result C) (l : list A) (k : list B)
  : result (list C) :=
  match l, k with
  | x :: l', y :: k' => z ← f x y; zs ← zipR f l' k'; Ok (z :: zs)
  | _, _ => Ok []
  end.

(** ** Cells *)

(** One cell of a DataFrame, or one Python scalar.  A missing value is the
    float NaN, as pandas stores it. *)
Inductive cell :=
| CInt (z : Z)
| CFloat (x : float)
| CStr (s : string)
| CBool (b : bool).

(** [pd.isna] *)
Definition isna (c : cell) : bool :=
  match c with
  | CFloat x => is_nan x
  | _ => false
  end.

(** The binary64 value nearest to an integer (ties to even; an infinity
    beyond the largest float): the conversion numpy makes where an int64
    meets a float.  No int64 is out of range. *)
Definition float_of_Z (z : Z) : float :=
  SF2Prim (binary_normalize prec emax z 0 false).

(** [float(n)] for a Python integer [n]: the nearest binary64 value; an
    integer that rounds beyond the largest float raises
    [OverflowError]. *)
Definition float_of_int (z : Z) : result float :=
  let x := float_of_Z z in
  if is_infinity x then Raise OverflowError else Ok x.

(** [int(x)] for a float [x]: truncation toward zero; NaN and the infinities
    raise. *)
Definition int_of_float (x : float) : result Z :=
  match Prim2SF x with
  | S754_zero _ => Ok 0
  | S754_finite s m e =>
      let a := match e with
               | Zneg p => Z.shiftr (Zpos m) (Zpos p)
               | _ => Z.shiftl (Zpos m) e
               end in
      Ok (if s then - a else a)
  | S754_infinity _ => Raise OverflowError
  | S754_nan => Raise ValueError
  end.

(** The numeric view of a cell: an integer (bools included) or a float.
    The integers of a column are int64: a sum, a difference, a product or
    a negation that leaves the range wraps around. *)
Inductive num :=
| NInt (z : Z)
| NFloat (x : float).

Definition wrap64 (z : Z) : Z := (z + 2 ^ 63) mod 2 ^ 64 - 2 ^ 63.

Definition as_num (c : cell) : result num :=
  match c with
  | CInt z => Ok (NInt z)
  | CBool b => Ok (NInt (Z.b2z b))
  | CFloat x => Ok (NFloat x)
  | CStr _ => Raise TypeError
  end.

Definition num_float (n : num) : float :=
  match n with
  | NInt z => float_of_Z z
  | NFloat x => x
  end.

Definition cell_of_num (n : num) : cell :=
  match n with
  | NInt z => CInt z
  | NFloat x => CFloat x
  end.

Definition num_add (a b : num) : num :=
  match a, b with
  | NInt x, NInt y => NInt (wrap64 (x + y))
  | _, _ => NFloat (num_float a + num_float b)
  end.

Definition num_sub (a b : num) : num :=
  match a, b with
  | NInt x, NInt y => NInt (wrap64 (x - y))
  | _, _ => NFloat (num_float a - num_float b)
  end.

Definition num_mul (a b : num) : num :=
  match a, b with
  | NInt x, NInt y => NInt (wrap64 (x * y))
  | _, _ => NFloat (num_float a * num_float b)
  end.

Definition num_ltb (a b : num) : bool :=
  match a, b with
  | NInt x, NInt y => x <? y
  | _, _ => PrimFloat.ltb (num_float a) (num_float b)
  end.

Definition num_leb (a b : num) : bool :=
  match a, b with
  | NInt x, NInt y => x <=? y
  | _, _ => PrimFloat.leb (num_float a) (num_float b)
  end.

Definition num_eqb (a b : num) : bool :=
  match a, b with
  | NInt x, NInt y => x =? y
  | _, _ => PrimFloat.eqb (num_float a) (num_float b)
  end.

(** [s * n] for a string: [n] copies of [s]. *)
Fixpoint str_repeat (n : nat) (s : string) : string :=
  match n with
  | O => EmptyString
  | S n' => s +:+ str_repeat n' s
  end.

(** Python's binary operators on scalars. *)
Definition py_add (a b : cell) : result cell :=
  match a, b with
  | CStr s, CStr t => Ok (CStr (s +:+ t))
  | _, _ => x ← as_num a; y ← as_num b; Ok (cell_of_num (num_add x y))
  end.

Definition py_sub (a b : cell) : result cell :=
  x ← as_num a; y ← as_num b; Ok (cell_of_num (num_sub x y)).

Definition py_mul (a b : cell) : result cell :=
  match a, b with
  | CStr s, CInt n | CInt n, CStr s => Ok (CStr (str_repeat (Z.to_nat n) s))
  | CStr s, CBool n | CBool n, CStr s => Ok (CStr (if n then s else EmptyString))
  | _, _ => x ← as_num a; y ← as_num b; Ok (cell_of_num (num_mul x y))
  end.

Definition py_neg (a : cell) : result cell :=
  x ← as_num a;
  Ok (match x with
      | NInt z => CInt (wrap64 (- z))
      | NFloat f => CFloat (- f)
      end).

(** [a < b], [a <= b], [a > b], [a >= b]: ordering a string against a
    number raises; two strings compare lexicographically. *)
Definition str_ltb (s t : string) : bool :=
  match String.compare s t with
  | Lt => true
  | _ => false
  end.

Definition py_lt (a b : cell) : result bool :=
  match a, b with
  | CStr s, CStr t => Ok (str_ltb s t)
  | _, _ => x ← as_num a; y ← as_num b; Ok (num_ltb x y)
  end.

Definition py_le (a b : cell) : result bool :=
  match a, b with
  | CStr s, CStr t => Ok (negb (str_ltb t s))
  | _, _ => x ← as_num a; y ← as_num b; Ok (num_leb x y)
  end.

Definition py_gt (a b : cell) : result bool := py_lt b a.
Definition py_ge (a b : cell) : result bool := py_le b a.

(** [a == b] never raises: values of different kinds are unequal. *)
Definition py_eq (a b : cell) : bool :=
  match a, b with
  | CStr s, CStr t => String.eqb s t
  | CStr _, _ | _, CStr _ => false
  | _, _ =>
      match as_num a, as_num b with
      | Ok x, Ok y => num_eqb x y
      | _, _ => false
      end
  end.

(** ** Series and DataFrames *)

(** A pandas Series, by position. *)
Abbreviation series := (list cell).

(** A DataFrame as a column store: the number of rows ([len(df)]) and the
    columns by name.  Rows are addressed by position; the index labels play
    no part in the modelled code. *)
Record DataFrame := mkDF {
  nrows : nat;
  cols : gmap string (list cell)
}.

(** [c in df.columns] *)
Definition has_column (c : string) (df : DataFrame) : bool :=
  bool_decide (is_Some (cols df !! c)).

(** [df[c]]: a missing column raises [KeyError]. *)
Definition column (c : string) (df : DataFrame) : result series :=
  match cols df !! c with
  | Some s => Ok s
  | None => Raise KeyError
  end.

(** [df[c] = s] *)
Definition set_column (c : string) (s : series) (df : DataFrame) : DataFrame :=
  mkDF (nrows df) (<[c := s]> (cols df)).

(** [df[c] = v] for a scalar [v]: the value in every row. *)
Definition set_scalar (c : string) (v : cell) (df : DataFrame) : DataFrame :=
  set_column c (replicate (nrows df) v) df.

(** [df.empty]: no rows, or no columns. *)
Definition df_empty (df : DataFrame) : bool :=
  (nrows df =? 0)%nat || bool_decide (cols df = ∅).

(** A float64 column holds floats only: an integer written into it is
    stored as the float of the same value. *)
Definition is_float_cell (c : cell) : bool :=
  match c with
  | CFloat _ => true
  | _ => false
  end.

Definition cast_like (s : series) (v : cell) : cell :=
  match v with
  | CInt z => if forallb is_float_cell s then CFloat (float_of_Z z) else v
  | _ => v
  end.

(** [s.fillna(v)] *)
Definition fillna (v : cell) (s : series) : series :=
  (fun c => if isna c then cast_like s v else c) <$> s.

(** Boolean indexing: the entries of [l] where the mask is [True]. *)
Fixpoint sel {A} (mask : list bool) (l : list A) : list A :=
  match mask, l with
  | b :: mask', x :: l' => if b then x :: sel mask' l' else sel mask' l'
  | _, _ => []
  end.

(** [df[mask]] *)
Definition select_rows (mask : list bool) (df : DataFrame) : DataFrame :=
  mkDF (length (sel mask (seq 0 (nrows df)))) (sel mask <$> cols df).

(** Row-wise conjunction of masks. *)
Fixpoint mask_and (m k : list bool) : list bool :=
  match m, k with
  | a :: m', b :: k' => (a && b) :: mask_and m' k'
  | _, _ => []
  end.

(** [df.dropna(subset=cs)]: keep the rows with no missing value in the
    columns [cs]; each of them must exist. *)
Fixpoint notna_mask (cs : list string) (df : DataFrame) : result (list bool) :=
  match cs with
  | [] => Ok (replicate (nrows df) true)
  | c :: cs' =>
      s ← column c df;
      m ← notna_mask cs' df;
      Ok (mask_and ((fun x => negb (isna x)) <$> s) m)
  end.

Definition dropna (cs : list string) (df : DataFrame) : result DataFrame :=
  m ← notna_mask cs df; Ok (select_rows m df).

(** [s.max()]: the largest value that is not missing, NaN when there is
    none.  A string among numbers raises [TypeError]; so does a column of
    strings one step later, at [max_adp + 100], and the model raises for
    both here. *)
Fixpoint series_max_from (m : option num) (s : series) : result (option num) :=
  match s with
  | [] => Ok m
  | c :: s' =>
      if isna c then series_max_from m s'
      else
        x ← as_num c;
        series_max_from
          (Some match m with
                | Some y => if num_ltb y x then x else y
                | None => x
                end) s'
  end.

Definition series_max (s : series) : result cell :=
  m ← series_max_from None s;
  Ok (match m with
      | Some x => cell_of_num x
      | None => CFloat nan
      end).

(** [s.rank(ascending=asc, method='min')]: one plus the number of values
    strictly ahead of the row's own; a missing value has no rank ([None]
    for pandas' NaN).  pandas returns the counts as floats, which the
    [astype(int)] that follows turns back into the same integers. *)
Definition ahead (asc : bool) (y x : cell) : result bool :=
  if isna y then Ok false
  else if asc then py_lt y x else py_gt y x.

Fixpoint count_true (bs : list bool) : Z :=
  match bs with
  | [] => 0
  | b :: bs' => Z.b2z b + count_true bs'
  end.

Definition rank_min (asc : bool) (s : series) : result (list (option Z)) :=
  mapR (fun x =>
          if isna x then Ok None
          else bs ← mapR (fun y => ahead asc y x) s; Ok (Some (1 + count_true bs)))
       s.

(** [.astype(int)] on a rank column: NaN cannot be cast. *)
Definition astype_int (r : list (option Z)) : result series :=
  mapR (fun o => match o with
                 | Some z => Ok (CInt z)
                 | None => Raise ValueError
                 end) r.

(** The floats of a numeric column ([np.asarray]). *)
Definition to_floats (s : series) : result (list float) :=
  mapR (fun c => num_float <$> as_num c) s.

(** [a.sum()] as numpy computes it (its pairwise sum), 0 when empty.
    Fewer than eight elements are added from the first one on, left to
    right.  From eight elements on, up to 128, they go into eight running
    sums, element [i] into sum [i mod 8], as long as whole groups of eight
    last; the eight are combined as
    [((r0+r1)+(r2+r3))+((r4+r5)+(r6+r7))] and the elements left over are
    added to that one by one.  A longer array is cut in two near the
    middle, at a multiple of eight, and the sums of the two parts are
    added. *)
Fixpoint add_groups (k : nat) (r l : list float) : list float * list float :=
  match k with
  | O => (r, l)
  | S k' => add_groups k' (zip_with PrimFloat.add r (take 8 l)) (drop 8 l)
  end.

Definition sum_unrolled (l : list float) : float :=
  let rl := add_groups (length l / 8 - 1) (take 8 l) (drop 8 l) in
  match rl.1 with
  | [r0; r1; r2; r3; r4; r5; r6; r7] =>
      foldl PrimFloat.add
        (((r0 + r1) + (r2 + r3)) + ((r4 + r5) + (r6 + r7)))%float rl.2
  | _ => nan
  end.

(** The fuel bounds the number of halvings; the length of the array is
    more than enough. *)
Fixpoint pairwise_sum (fuel : nat) (l : list float) : float :=
  match fuel with
  | S fuel' =>
      if (128 <? length l)%nat then
        let n2 := (length l / 2 - (length l / 2) mod 8)%nat in
        (pairwise_sum fuel' (take n2 l) + pairwise_sum fuel' (drop n2 l))%float
      else sum_unrolled l
  | O => sum_unrolled l
  end.

Definition fsum (l : list float) : float :=
  if (length l <? 8)%nat then
    match l with
    | [] => 0%float
    | x :: l' => foldl PrimFloat.add x l'
    end
  else pairwise_sum (length l) l.

(** [a.mean()] and [a.std()] (the population standard deviation,
    ddof = 0), both over numpy's sum.  (Integers are converted to floats
    first; numpy does that in runs of 8192 elements, which the sum here
    does not follow beyond that length.) *)
Definition fmean (l : list float) : float :=
  (fsum l / float_of_Z (Z.of_nat (length l)))%float.

Definition fstd (l : list float) : float :=
  let m := fmean l in
  PrimFloat.sqrt (fmean ((fun x => (x - m) * (x - m))%float <$> l)).

(** A column whose cells are all floats, all integers (of the int64
    range) or all booleans is held as a numpy array of that type; any
    other is an array of Python objects. *)
Definition is_int_cell (c : cell) : bool :=
  match c with
  | CInt z => bool_decide (- 2 ^ 63 ≤ z < 2 ^ 63)
  | _ => false
  end.

Definition is_bool_cell (c : cell) : bool :=
  match c with
  | CBool _ => true
  | _ => false
  end.

Definition numeric_dtype (s : series) : bool :=
  forallb is_float_cell s || forallb is_int_cell s || forallb is_bool_cell s.

(** [a.min()]: the smallest element, NaN when one of them is NaN. *)
Definition num_isnan (x : num) : bool :=
  match x with
  | NFloat f => is_nan f
  | NInt _ => false
  end.

Definition num_min (a : list num) : option num :=
  match a with
  | [] => None
  | x :: a' =>
      Some (foldl (fun m y => if num_isnan m then m
                              else if num_isnan y then y
                              else if num_ltb y m then y else m) x a')
  end.

(** [(a == a.min()).all()]: every element is the same number. *)
Definition isconst (a : list num) : bool :=
  match num_min a with
  | Some a0 => forallb (fun x => num_eqb x a0) a
  | None => true
  end.

(** [scipy.stats.zscore(a)]: [(a - a.mean()) / a.std()], and NaN for every
    element when the input is constant (scipy tests that and sets the
    scores itself).  Nothing is raised on a constant column.  An array of
    objects raises [TypeError]: text cannot be added up, and [std] has no
    square root for an object. *)
Definition zscore (s : series) : result (list float) :=
  nums ← mapR as_num s;
  let a := num_float <$> nums in
  if negb (numeric_dtype s) then Raise TypeError
  else if isconst nums then Ok (replicate (length a) nan)
  else
    let m := fmean a in
    let sd := fstd a in
    Ok ((fun x => (x - m) / sd)%float <$> a).

(** ** The metric calculator: [process_data] *)

(** [df['ID'] = range(len(df))] when the column is absent. *)
Definition ensure_id (df : DataFrame) : DataFrame :=
  if has_column "ID" df then df
  else set_column "ID" (CInt <$> (Z.of_nat <$> seq 0 (nrows df))) df.

(** The value substituted for a missing ADP: [max_adp + 100], where
    [max_adp] falls back to 999 when the column has no value at all. *)
Definition adp_fill_value (adp : series) : result cell :=
  max_adp ← series_max adp;
  let max_adp := if isna max_adp then CInt 999 else max_adp in
  py_add max_adp (CInt 100).

(** Fill missing ADP values with a high number (drafted last). *)
Definition fill_adp (df : DataFrame) : result DataFrame :=
  match cols df !! "ADP" with
  | Some adp => v ← adp_fill_value adp; Ok (set_column "ADP" (fillna v adp) df)
  | None => Ok df
  end.

Definition required_cols : list (string * cell) :=
  [ ("ShutdownRisk", CFloat 0.5);
    ("R2Mult", CFloat 1.0);
    ("R3Mult", CFloat 1.0);
    ("FinalsMult", CFloat 1.0);
    ("TeamRank", CInt 15);
    ("R2Games", CInt 3);
    ("R3Games", CInt 3);
    ("FinalsGames", CInt 3);
    ("FinalAdjGPP", CInt 0);
    ("ADP", CInt 999) ].

(** One turn of the loop over [required_cols.items()]. *)
Definition ensure_col (df : DataFrame) (cd : string * cell) : DataFrame :=
  match cols df !! cd.1 with
  | None => set_scalar cd.1 cd.2 df
  | Some s => set_column cd.1 (fillna cd.2 s) df
  end.

Definition ensure_required (df : DataFrame) : DataFrame :=
  foldl ensure_col df required_cols.

Definition critical_cols : list string :=
  ["Name"; "Position"; "Team"; "FinalAdjGPP"].

(** [df[df['FinalAdjGPP'] > 0]] *)
Definition keep_positive (df : DataFrame) : result DataFrame :=
  gpp ← column "FinalAdjGPP" df;
  m ← mapR (fun x => py_gt x (CInt 0)) gpp;
  Ok (select_rows m df).

(** The two rank columns and their difference. *)
Definition add_ranks (df : DataFrame) : result DataFrame :=
  gpp ← column "FinalAdjGPP" df;
  fr ← rank_min false gpp;
  fr ← astype_int fr;
  let df := set_column "FinalAdjGPP_Rank" fr df in
  adp ← column "ADP" df;
  ar ← rank_min true adp;
  ar ← astype_int ar;
  let df := set_column "ADP_Rank" ar df in
  vs ← zipR py_sub ar fr;
  Ok (set_column "ValueScore" vs df).

(** The z-score block: the three columns when nothing raises, the scalar 0
    in all three otherwise. *)
Definition add_zscores (df : DataFrame) : DataFrame :=
  try_except
    (gpp ← column "FinalAdjGPP" df;
     zf ← zscore gpp;
     adp ← column "ADP" df;
     nadp ← mapR py_neg adp;
     za ← zscore nadp;
     Ok (set_column "ValueZ"
           (CFloat <$> zip_with PrimFloat.sub zf za)
           (set_column "zADP" (CFloat <$> za)
              (set_column "zFinal" (CFloat <$> zf) df))))
    (set_scalar "ValueZ" (CInt 0)
       (set_scalar "zADP" (CInt 0) (set_scalar "zFinal" (CInt 0) df))).

(** [(df['ValueScore'] >= 12) | (df['ValueZ'] >= 0.75)] *)
Definition add_value_alert (df : DataFrame) : result DataFrame :=
  vs ← column "ValueScore" df;
  a ← mapR (fun x => py_ge x (CInt 12)) vs;
  vz ← column "ValueZ" df;
  b ← mapR (fun x => py_ge x (CFloat 0.75)) vz;
  Ok (set_column "ValueAlert" (CBool <$> zip_with orb a b) df).

(** Calculate derived columns for the dataframe.  (The source returns
    [None] for the input [None]; a frame is always given here.) *)
Definition process_data (df : DataFrame) : result DataFrame :=
  let df := ensure_id df in
  df ← fill_adp df;
  let df := ensure_required df in
  df ← dropna critical_cols df;
  df ← keep_positive df;
  df ← add_ranks df;
  let df := add_zscores df in
  add_value_alert df.

(** The columns [process_data] computes; every other column of its result
    comes from the input. *)
Definition derived_cols : list string :=
  ["FinalAdjGPP_Rank"; "ADP_Rank"; "ValueScore";
   "zFinal"; "zADP"; "ValueZ"; "ValueAlert"].

(** Calculate LiveScore based on finals emphasis. *)
Definition calculate_live_score (df : DataFrame) (emphasis : float)
  : result DataFrame :=
  gpp ← column "FinalAdjGPP" df;
  ls ← mapR (fun x => py_mul x (CFloat emphasis)) gpp;
  Ok (set_column "LiveScore" ls df).

(** A frame from its columns, as a loader hands it over. *)
Definition frame (n : nat) (l : list (string * series)) : DataFrame :=
  mkDF n (list_to_map l).

(** ** Scores over the roster *)

(** [s.sum()] with pandas' default [skipna]: a missing value counts as
    0. *)
Definition fsum_skipna (l : list float) : float :=
  fsum ((fun x => if is_nan x then 0%float else x) <$> l).

Definition series_sum (s : series) : result cell :=
  a ← to_floats s; Ok (CFloat (fsum_skipna a)).

(** [a * b] and [a + b] on two columns, [a * k] on a column and a scalar. *)
Definition col_mul (a b : series) : result series := zipR py_mul a b.
Definition col_add (a b : series) : result series := zipR py_add a b.
Definition col_scale (a : series) (k : float) : result series :=
  mapR (fun x => py_mul x (CFloat k)) a.

(** [df[g] * df[m] * k] *)
Definition scaled_product (g m : string) (k : float) (df : DataFrame)
  : result series :=
  a ← column g df;
  b ← column m df;
  p ← col_mul a b;
  col_scale p k.

(** The body of the [try] block of [calculate_equity]. *)
Definition equity_sums (roster_df : DataFrame) : result (cell * cell) :=
  r2 ← scaled_product "R2Games" "R2Mult" 1.0 roster_df;
  r3 ← scaled_product "R3Games" "R3Mult" 1.35 roster_df;
  adv ← col_add r2 r3;
  advance_equity ← series_sum adv;
  fin ← scaled_product "FinalsGames" "FinalsMult" 1.75 roster_df;
  win_equity ← series_sum fin;
  Ok (advance_equity, win_equity).

(** Calculate AdvanceEquity and WinEquity for roster. *)
Definition calculate_equity (roster_df : DataFrame) : cell * cell :=
  if df_empty roster_df then (CInt 0, CInt 0)
  else try_except (equity_sums roster_df) (CInt 0, CInt 0).








(** A frame as a loader builds it: every column has one cell per row. *)
Definition well_formed (df : DataFrame) : Prop :=
  ∀ c s, cols df !! c = Some s → length s = nrows df.

(** One row of a frame ([player_row]): its cells by column name. *)
Abbreviation row := (gmap string cell).

(** [player_row[c]] *)
Definition item (c : string) (r : row) : result cell :=
  match r !! c with
  | Some v => Ok v
  | None => Raise KeyError
  end.

(** The stack bonus by the number of roster players on the candidate's
    team: exactly one, exactly two, anything else. *)
Definition stack_bonus (team_count : nat) : Z :=
  if (team_count =? 1)%nat then 6
  else if (team_count =? 2)%nat then 10
  else 0.

Section StackScore.
(** [float(s)] and [int(s)] on a string are the interpreter's parsers;
    the score is defined for any. *)
Variable float_of_str : string → result float.
Variable int_of_str : string → result Z.

(** [float(c)] *)
Definition py_float (c : cell) : result float :=
  match c with
  | CStr s => float_of_str s
  | CInt z => float_of_int z
  | CBool b => Ok (float_of_Z (Z.b2z b))
  | CFloat x => Ok x
  end.

(** [int(c)] *)
Definition py_int (c : cell) : result Z :=
  match c with
  | CStr s => int_of_str s
  | CFloat x => int_of_float x
  | CInt z => Ok z
  | CBool b => Ok (Z.b2z b)
  end.

Definition team_rank_bonus (player_row : row) : Z :=
  try_except
    (r ← item "TeamRank" player_row;
     x ← py_float r;
     Ok (if PrimFloat.leb x 10 then 3 else 0))
    0.

Definition finals_games_bonus (player_row : row) : Z :=
  try_except
    (g ← item "FinalsGames" player_row;
     n ← py_int g;
     Ok (if n =? 4 then 4 else 0))
    0.

Definition finals_mult_bonus (player_row : row) : Z :=
  try_except
    (m ← item "FinalsMult" player_row;
     x ← py_float m;
     Ok (if PrimFloat.leb 1.04 x then 2 else 0))
    0.

(** [len(my_roster_df[my_roster_df['Team'] == player_team])] *)
Definition team_count (player_team : cell) (teams : series) : nat :=
  length (sel ((fun t => py_eq t player_team) <$> teams) teams).

(** Calculate stack score for a potential pick. *)
Definition calculate_stack_score (player_row : row) (my_roster_df : DataFrame)
  : result Z :=
  let score : Z := 0 in
  if df_empty my_roster_df then Ok score
  else
    player_team ← item "Team" player_row;
    teams ← column "Team" my_roster_df;
    let score := score + stack_bonus (team_count player_team teams) in
    let score := score + team_rank_bonus player_row in
    let score := score + finals_games_bonus player_row in
    let score := score + finals_mult_bonus player_row in
    Ok score.
End StackScore.

(** ** The draft state of [main] *)

(** [st.session_state.drafted_players] (a set of ids) and
    [st.session_state.my_roster] (the user's picks, oldest first). *)
Record session := mkSession {
  drafted_players : gset Z;
  my_roster : list Z
}.

Definition init_session_state : session := mkSession ∅ [].

(** What the user is told: [st.success] and [st.info] (the messages
    without their leading emoji).  The code has no other report for a draft
    action. *)
Inductive notice :=
| Success (msg : string)
| Info (msg : string).

(** The body of "Draft to My Team" for the chosen [player_id]. *)
Definition draft (player_id : Z) (s : session) : session :=
  mkSession ({[player_id]} ∪ drafted_players s) (my_roster s ++ [player_id]).

(** The body of "Mark as Drafted". *)
Definition mark_drafted (player_id : Z) (s : session) : session :=
  mkSession ({[player_id]} ∪ drafted_players s) (my_roster s).

(** "Undo Last Pick": [my_roster.pop()] and [drafted_players.discard]. *)
Definition undo (s : session) : session :=
  match last (my_roster s) with
  | Some last_pick =>
      mkSession (drafted_players s ∖ {[last_pick]}) (removelast (my_roster s))
  | None => s
  end.

(** "Reset Draft" (and "Upload New Data", which clears the same two). *)
Definition reset (s : session) : session := mkSession ∅ [].

(** The rows on display, each with the label the select box shows for it
    ([f"{Name} ({Position}, {Team})"]) and its [ID]. *)
Abbreviation board := (list (string * Z)).

(** [player_options]: label to id over the displayed rows that are not in
    [drafted_players]; a later row with the same label replaces an earlier
    one. *)
Definition available_players (display_df : board) (s : session) : board :=
  filter (fun r => r.2 ∉ drafted_players s) display_df.

Definition player_options (display_df : board) (s : session) : gmap string Z :=
  foldl (fun m r => <[r.1 := r.2]> m) ∅ (available_players display_df s).

(** The user's actions.  A draft button comes with the board on display and
    the label chosen in the select box. *)
Inductive event :=
| UploadNewData
| ResetDraft
| UndoLastPick
| DraftToMyTeam (display_df : board) (selected_player : string)
| MarkAsDrafted (display_df : board) (selected_player : string).

(** One run of the script on an action.  The two draft buttons act only on
    [player_options[selected_player]]; the select box offers the keys of
    [player_options] and nothing else, and with no option there is no
    button, so a label outside them leaves the run without effect. *)
Definition step (s : session) (ev : event) : session * list notice :=
  match ev with
  | UploadNewData => (reset s, [])
  | ResetDraft => (reset s, [])
  | UndoLastPick => (undo s, [])
  | DraftToMyTeam display_df selected_player =>
      match player_options display_df s !! selected_player with
      | Some player_id =>
          (draft player_id s, [Success ("Drafted " +:+ selected_player)])
      | None => (s, [])
      end
  | MarkAsDrafted display_df selected_player =>
      match player_options display_df s !! selected_player with
      | Some player_id =>
          (mark_drafted player_id s,
           [Info ("Marked " +:+ selected_player +:+ " as drafted")])
      | None => (s, [])
      end
  end.

(** The session after a sequence of actions. *)
Definition run (evs : list event) (s : session) : session :=
  foldl (fun s ev => (step s ev).1) s evs.

(** What holds of every session the handlers can produce: the roster has
    no duplicate and lies within the drafted set. *)
Definition consistent (s : session) : Prop :=
  NoDup (my_roster s) ∧ ∀ id, id ∈ my_roster s → id ∈ drafted_players s.

(** ** [app_web.py]: the same functions before the defensive rewrite *)

Module Original.

(** The z-score columns, with no handler around them. *)
Definition add_zscores (df : DataFrame) : result DataFrame :=
  gpp ← column "FinalAdjGPP" df;
  zf ← zscore gpp;
  let df := set_column "zFinal" (CFloat <$> zf) df in
  adp ← column "ADP" df;
  nadp ← mapR py_neg adp;
  za ← zscore nadp;
  let df := set_column "zADP" (CFloat <$> za) df in
  Ok (set_column "ValueZ" (CFloat <$> zip_with PrimFloat.sub zf za) df).

Definition required_cols : list (string * cell) :=
  [ ("ShutdownRisk", CFloat 0.5);
    ("R2Mult", CFloat 1.0);
    ("R3Mult", CFloat 1.0);
    ("FinalsMult", CFloat 1.0);
    ("TeamRank", CInt 15) ].

Definition ensure_col (df : DataFrame) (cd : string * cell) : DataFrame :=
  if has_column cd.1 df then df else set_scalar cd.1 cd.2 df.

(** Calculate derived columns for the dataframe: no cleaning, no filling
    of missing values. *)
Definition process_data (df : DataFrame) : result DataFrame :=
  let df := ensure_id df in
  df ← add_ranks df;
  df ← add_zscores df;
  df ← add_value_alert df;
  Ok (foldl ensure_col df required_cols).

(** Calculate stack score for a potential pick: the three quality tests
    are made on the cells as they are. *)
Definition calculate_stack_score (player_row : row) (my_roster_df : DataFrame)
  : result Z :=
  let score : Z := 0 in
  if df_empty my_roster_df then Ok score
  else
    player_team ← item "Team" player_row;
    teams ← column "Team" my_roster_df;
    let score := score + stack_bonus (team_count player_team teams) in
    r ← item "TeamRank" player_row;
    b ← py_le r (CInt 10);
    let score := if b : bool then score + 3 else score in
    g ← item "FinalsGames" player_row;
    let score := if py_eq g (CInt 4) then score + 4 else score in
    m ← item "FinalsMult" player_row;
    b ← py_ge m (CFloat 1.04);
    let score := if b : bool then score + 2 else score in
    Ok score.

(** Calculate AdvanceEquity and WinEquity for roster: an exception in the
    arithmetic reaches the caller. *)
Definition calculate_equity (roster_df : DataFrame) : result (cell * cell) :=
  if df_empty roster_df then Ok (CInt 0, CInt 0) else equity_sums roster_df.

End Original.

(** ** The order of floats *)

(** The place of a float on the line, as [SFcompare] reads it: the
    infinities at the two ends, the finite values by sign, then exponent,
    then mantissa, the two zeros together. *)
Definition sf_key (s : spec_float) : Z * Z * Z :=
  match s with
  | S754_infinity true => (-2, 0, 0)
  | S754_finite true m e => (-1, - e, - Z.pos m)
  | S754_zero _ => (0, 0, 0)
  | S754_nan => (0, 0, 0)
  | S754_finite false m e => (1, e, Z.pos m)
  | S754_infinity false => (2, 0, 0)
  end.

Definition key_le (a b : Z * Z * Z) : Prop :=
  a.1.1 < b.1.1
  ∨ (a.1.1 = b.1.1 ∧ (a.1.2 < b.1.2 ∨ (a.1.2 = b.1.2 ∧ a.2 ≤ b.2))).

Definition key_lt (a b : Z * Z * Z) : Prop :=
  a.1.1 < b.1.1
  ∨ (a.1.1 = b.1.1 ∧ (a.1.2 < b.1.2 ∨ (a.1.2 = b.1.2 ∧ a.2 < b.2))).

Definition fkey (x : float) : Z * Z * Z := sf_key (Prim2SF x).

(** [x <= y] holds. *)
Definition fle (x y : float) : Prop := PrimFloat.leb x y = true.

(** The largest of the values of a float column that are not missing, if
    there is one ([series_max] on floats). *)
Definition max_step (m : option float) (x : float) : option float :=
  if is_nan x then m
  else Some match m with
            | Some y => if PrimFloat.ltb y x then x else y
            | None => x
            end.

Definition observed_max (xs : list float) : option float :=
  foldl max_step None xs.

(** ** Inputs used in the examples *)

(** The three players A (100 points, ADP 5), B (90, ADP 1) and C (90,
    ADP 2), with any positions and teams. *)
Definition catalog3 (pa pb pc ta tb tc : string) : DataFrame :=
  frame 3
    [ ("Name", [CStr "A"; CStr "B"; CStr "C"]);
      ("Position", [CStr pa; CStr pb; CStr pc]);
      ("Team", [CStr ta; CStr tb; CStr tc]);
      ("FinalAdjGPP", [CFloat 100; CFloat 90; CFloat 90]);
      ("ADP", [CFloat 5; CFloat 1; CFloat 2]) ].

Definition board2 : DataFrame :=
  frame 2 [ ("Name", [CStr "A"; CStr "B"]);
            ("FinalAdjGPP", [CFloat 100; CFloat 90.5]);
            ("FinalAdjGPP_Rank", [CInt 1; CInt 2]) ].

(** A session in which player 1 is on the roster, and a board showing that
    player alone. *)
Definition picked1 : session := mkSession {[1]} [1].
Definition board1 : board := [("A (G, LAL)", 1)].

(** A session in which player 7 went to an opponent. *)
Definition taken7 : session := mkSession {[7]} [].





(** Two players with the same projection. *)
Definition flat2 : DataFrame :=
  frame 2
    [ ("Name", [CStr "A"; CStr "B"]);
      ("Position", [CStr "G"; CStr "F"]);
      ("Team", [CStr "LAL"; CStr "BOS"]);
      ("FinalAdjGPP", [CFloat 90; CFloat 90]);
      ("ADP", [CFloat 1; CFloat 2]) ].







(** Two players, neither with an ADP. *)
Definition no_adp2 : DataFrame :=
  frame 2
    [ ("Name", [CStr "A"; CStr "B"]);
      ("Position", [CStr "G"; CStr "F"]);
      ("Team", [CStr "LAL"; CStr "BOS"]);
      ("FinalAdjGPP", [CFloat 100; CFloat 90]);
      ("ADP", [CFloat nan; CFloat nan]) ].

(** Three players, the last with no ADP. *)
Definition late3 : DataFrame :=
  frame 3
    [ ("Name", [CStr "A"; CStr "B"; CStr "C"]);
      ("Position", [CStr "G"; CStr "F"; CStr "C"]);
      ("Team", [CStr "LAL"; CStr "BOS"; CStr "LAL"]);
      ("FinalAdjGPP", [CFloat 100; CFloat 90; CFloat 80]);
      ("ADP", [CFloat 5; CFloat 12.5; CFloat nan]) ].

(** Three rows, the second with no projection. *)
Definition gapped3 : DataFrame :=
  frame 3
    [ ("Name", [CStr "A"; CStr "B"; CStr "C"]);
      ("Position", [CStr "G"; CStr "G"; CStr "G"]);
      ("Team", [CStr "LAL"; CStr "LAL"; CStr "LAL"]);
      ("FinalAdjGPP", [CFloat 10; CFloat 0; CFloat 5]) ].

(** ** Views of the table in [main] and [display_player_table] *)

(** [s.isin(values)]: a cell matches a value equal to it ([==]); a missing
    cell matches a missing value. *)
Definition isin (values : list cell) (s : series) : list bool :=
  (fun c => existsb (fun v => if isna c then isna v else py_eq c v) values)
    <$> s.

(** The ids of the session as the cells [isin] is given. *)
Definition roster_ids (s : session) : list cell := CInt <$> my_roster s.
Definition drafted_ids (s : session) : list cell :=
  CInt <$> elements (drafted_players s).

(** [df[df['ID'].isin(st.session_state.my_roster)]] *)
Definition my_roster_df (df : DataFrame) (s : session) : result DataFrame :=
  ids ← column "ID" df;
  Ok (select_rows (isin (roster_ids s) ids) df).

(** [df[df['ID'].isin(st.session_state.drafted_players)]] *)
Definition drafted_df (df : DataFrame) (s : session) : result DataFrame :=
  ids ← column "ID" df;
  Ok (select_rows (isin (drafted_ids s) ids) df).

(** [df[~df['ID'].isin(st.session_state.drafted_players)]]: the rows the
    recommendations are drawn from, and the rows of the board on display
    that the select box offers. *)
Definition available_df (df : DataFrame) (s : session) : result DataFrame :=
  ids ← column "ID" df;
  Ok (select_rows (negb <$> isin (drafted_ids s) ids) df).

(** Display the main player table with filtering: the rows of the view, or
    [None] when there is none.  (The styled copy handed to [st.dataframe]
    is not part of the result.) *)
Definition display_player_table (df : DataFrame)
  (show_drafted show_available show_my_roster : bool) (s : session)
  : result (option DataFrame) :=
  display_df ←
    (if show_my_roster then my_roster_df df s
     else if show_drafted then drafted_df df s
     else if show_available then available_df df s
     else Ok df);
  if df_empty display_df then Ok None else Ok (Some display_df).

(** The radio button of the sidebar. *)
Inductive view_mode := AvailableOnly | DraftedOnly | MyRoster | AllPlayers.

(** The call of [display_player_table] for each view mode; the flags left
    out of a call take the defaults of the signature. *)
Definition display_view (view : view_mode) (filtered_df : DataFrame)
  (s : session) : result (option DataFrame) :=
  match view with
  | AvailableOnly => display_player_table filtered_df false true false s
  | DraftedOnly => display_player_table filtered_df true false false s
  | MyRoster => display_player_table filtered_df false true true s
  | AllPlayers => display_player_table filtered_df false false false s
  end.

(** The players a view is meant to show. *)
Definition shown_in (view : view_mode) (s : session) (id : Z) : bool :=
  match view with
  | AvailableOnly => bool_decide (id ∉ drafted_players s)
  | DraftedOnly => bool_decide (id ∈ drafted_players s)
  | MyRoster => bool_decide (id ∈ my_roster s)
  | AllPlayers => true
  end.

(** ** The filters of the sidebar *)

(** The select box "Team Rank Tier": "All", "1-5 (Elite)", "6-10 (Good)",
    "11-20 (Mid)" and "21-30 (Weak)". *)
Inductive rank_tier := TierAll | Tier1_5 | Tier6_10 | Tier11_20 | Tier21_30.

(** The mask of a tier over the TeamRank column. *)
Definition tier_mask (t : rank_tier) (team_rank : series) : result (list bool) :=
  match t with
  | TierAll => Ok (replicate (length team_rank) true)
  | Tier1_5 => mapR (fun x => py_le x (CInt 5)) team_rank
  | Tier6_10 =>
      a ← mapR (fun x => py_ge x (CInt 6)) team_rank;
      b ← mapR (fun x => py_le x (CInt 10)) team_rank;
      Ok (zip_with andb a b)
  | Tier11_20 =>
      a ← mapR (fun x => py_ge x (CInt 11)) team_rank;
      b ← mapR (fun x => py_le x (CInt 20)) team_rank;
      Ok (zip_with andb a b)
  | Tier21_30 => mapR (fun x => py_ge x (CInt 21)) team_rank
  end.

(** The state of the filter widgets. *)
Record filters := mkFilters {
  position_filter : list cell;
  team_filter : list cell;
  rank_tier_choice : rank_tier;
  finals_games_filter : list cell;
  search_term : string
}.

(** ['All' in selection] *)
Definition has_all (selection : list cell) : bool :=
  existsb (py_eq (CStr "All")) selection.

(** [df[df[c].isin(selection)]] *)
Definition keep_isin (c : string) (selection : list cell) (df : DataFrame)
  : result DataFrame :=
  s ← column c df; Ok (select_rows (isin selection s) df).

(** A multiselect with an 'All' entry filters when 'All' is not chosen and
    something is. *)
Definition keep_chosen (c : string) (selection : list cell) (df : DataFrame)
  : result DataFrame :=
  if negb (has_all selection) && negb (bool_decide (selection = []))
  then keep_isin c selection df
  else Ok df.

Section Filters.
(** [names.str.contains(search_term, case=False, na=False)]: the regular
    expression search of pandas, which the filter takes as it is. *)
Variable str_contains : string → series → result (list bool).

(** "Apply filters": position, team, rank tier, finals games and the name
    search, one after the other. *)
Definition apply_filters (f : filters) (df : DataFrame) : result DataFrame :=
  let filtered_df := df in
  filtered_df ← keep_chosen "Position" (position_filter f) filtered_df;
  filtered_df ← keep_chosen "Team" (team_filter f) filtered_df;
  filtered_df ←
    match rank_tier_choice f with
    | TierAll => Ok filtered_df
    | t =>
        team_rank ← column "TeamRank" filtered_df;
        m ← tier_mask t team_rank;
        Ok (select_rows m filtered_df)
    end;
  filtered_df ←
    (if bool_decide (finals_games_filter f = []) then Ok filtered_df
     else keep_isin "FinalsGames" (finals_games_filter f) filtered_df);
  if bool_decide (search_term f = EmptyString) then Ok filtered_df
  else
    names ← column "Name" filtered_df;
    m ← str_contains (search_term f) names;
    Ok (select_rows m filtered_df).
End Filters.

(** What a filter may do to a table: [out] holds rows of [df], in their
    order and with their cells. *)
Definition rows_of (df out : DataFrame) : Prop :=
  out = df ∨ ∃ m, out = select_rows m df.

(** ** The session store and the script *)

Module SessionStore.

(** The values [st.session_state] holds under the five keys. *)
Inductive value :=
| VSet (ids : gset Z)
| VList (ids : list Z)
| VFloat (x : float)
| VBool (b : bool)
| VNone
| VFrame (df : DataFrame).

(** [if k not in st.session_state: st.session_state[k] = v] *)
Definition init_key (k : string) (v : value) (st : gmap string value)
  : gmap string value :=
  match st !! k with
  | Some _ => st
  | None => <[k := v]> st
  end.

(** Initialize session state. *)
Definition init_session_state (st : gmap string value) : gmap string value :=
  let st := init_key "drafted_players" (VSet ∅) st in
  let st := init_key "my_roster" (VList []) st in
  let st := init_key "finals_emphasis" (VFloat 1.0) st in
  let st := init_key "data_loaded" (VBool false) st in
  init_key "df" VNone st.

Definition session_keys : list string :=
  ["drafted_players"; "my_roster"; "finals_emphasis"; "data_loaded"; "df"].

End SessionStore.

(** The five entries of the session state as [main] uses them. *)
Record app := mkApp {
  ss_df : option DataFrame;
  ss_data_loaded : bool;
  ss_finals_emphasis : float;
  ss_draft : session
}.

(** The state [init_session_state] sets up in a new session. *)
Definition new_app : app := mkApp None false 1.0 init_session_state.

(** What the user does before a run of the script: hand in a file (given
    here as the frame read from it), move the emphasis slider, or press
    one of the buttons of [event]. *)
Inductive action :=
| UploadFile (raw : DataFrame)
| MoveSlider (finals_emphasis : float)
| Press (ev : event).

(** The file upload section: the processed table is stored when
    [process_data] returns one with a row in it; an exception is reported
    and nothing is stored. *)
Definition upload (raw : DataFrame) (st : app) : app :=
  match process_data raw with
  | Ok df =>
      if (nrows df =? 0)%nat then st
      else mkApp (Some df) true (ss_finals_emphasis st) (ss_draft st)
  | Raise _ => st
  end.

(** One run of [main].  With no table only the uploader is shown.  With a
    table the live score is written into it first, at the emphasis stored
    by the run before (a run that fails there ends with the state as it
    was); "Upload New Data" comes next and ends the run; then the slider
    value is stored, and the buttons of the sidebar and the board act on
    the draft.  A run set off by a button finds the slider where it
    was. *)
Definition main (st : app) (a : action) : app :=
  match ss_df st with
  | None =>
      match a with
      | UploadFile raw => upload raw st
      | _ => st
      end
  | Some df =>
      match calculate_live_score df (ss_finals_emphasis st) with
      | Raise _ => st
      | Ok df =>
          match a with
          | UploadFile _ =>
              mkApp (Some df) (ss_data_loaded st) (ss_finals_emphasis st)
                (ss_draft st)
          | Press UploadNewData =>
              mkApp None false (ss_finals_emphasis st) (reset (ss_draft st))
          | MoveSlider finals_emphasis =>
              mkApp (Some df) (ss_data_loaded st) finals_emphasis (ss_draft st)
          | Press ev =>
              mkApp (Some df) (ss_data_loaded st) (ss_finals_emphasis st)
                (step (ss_draft st) ev).1
          end
      end
  end.

(** The state after a sequence of runs. *)
Definition runs (acts : list action) (st : app) : app := foldl main st acts.

(** What the script maintains.  The stored table is a result of
    [process_data] with at least one row, but for the LiveScore column
    written into it by later runs; the flag [data_loaded] tells whether
    there is a table; without a table there is no draft; and the draft is
    [consistent]. *)
Definition processed (t : DataFrame) : Prop :=
  ∃ raw out,
    process_data raw = Ok out
    ∧ nrows out ≠ 0%nat
    ∧ nrows t = nrows out
    ∧ ∀ c, c ≠ "LiveScore" → cols t !! c = cols out !! c.

Definition app_ok (st : app) : Prop :=
  (ss_data_loaded st = true ↔ is_Some (ss_df st))
  ∧ (ss_df st = None → ss_draft st = init_session_state)
  ∧ consistent (ss_draft st)
  ∧ ∀ t, ss_df st = Some t → processed t.

(** The live score on display: the LiveScore column of the stored
    table. *)
Definition live_scores (st : app) : option series :=
  t ← ss_df st; cols t !! "LiveScore".

(** A processed table of three players with the ids 0, 1 and 7. *)
Definition lobby : DataFrame :=
  frame 3
    [ ("ID", [CInt 0; CInt 1; CInt 7]);
      ("Name", [CStr "A"; CStr "B"; CStr "C"]);
      ("Position", [CStr "G"; CStr "F"; CStr "C"]);
      ("Team", [CStr "LAL"; CStr "BOS"; CStr "LAL"]);
      ("TeamRank", [CInt 3; CInt 12; CInt 3]);
      ("FinalsGames", [CInt 4; CInt 3; CInt 4]);
      ("FinalAdjGPP", [CFloat 100; CFloat 90; CFloat 80]) ].

(** * Properties *)

(** ** binary64 facts used below *)

Lemma shr_exact_52 (m : positive) :
  SpecFloat.iter_pos shr_1 52
    {| shr_m := Z.pos (Pos.iter xO m 52); shr_r := false; shr_s := false |}
  = {| shr_m := Z.pos m; shr_r := false; shr_s := false |}.
Proof. reflexivity. Qed.

Lemma SFmul_one_r (s : spec_float) :
  valid_binary s = true → SF64mul s (Prim2SF 1) = s.
Proof.
  change (Prim2SF 1) with (S754_finite false 4503599627370496 (-52)).
  destruct s as [sx|sx| |sx mx ex]; simpl; intros Hv.
  - by destruct sx.
  - by destruct sx.
  - done.
  - unfold SF64mul, SFmul.
    apply andb_prop in Hv as [Hc Hb].
    unfold canonical_mantissa in Hc. apply Z.eqb_eq in Hc.
    replace (xorb sx false) with sx by (by destruct sx).
    replace (mx * 4503599627370496)%positive with (Pos.iter xO mx 52)
      by (rewrite Pos.mul_comm; reflexivity).
    unfold binary_round_aux, shr_fexp, Zdigits2.
    replace (digits2_pos (Pos.iter xO mx 52))
      with (digits2_pos mx + 52)%positive by (cbn; lia).
    replace (Z.pos (digits2_pos mx + 52) + (ex + -52))
      with (Z.pos (digits2_pos mx) + ex) by lia.
    rewrite Hc.
    replace (ex - (ex + -52)) with 52 by lia.
    cbn [shr shr_record_of_loc].
    rewrite shr_exact_52.
    cbn [shr_m loc_of_shr_record round_nearest_even].
    replace (ex + -52 + 52) with ex by lia.
    rewrite Hc, Z.sub_diag. cbn [shr shr_record_of_loc shr_m].
    by rewrite Hb.
Qed.

(** Multiplying by 1.0 changes no float. *)
Lemma float_mul_1_r (x : float) : (x * 1)%float = x.
Proof.
  apply Prim2SF_inj. rewrite mul_spec. apply SFmul_one_r, Prim2SF_valid.
Qed.

Lemma is_nan_spec (x : float) : is_nan x = true ↔ Prim2SF x = S754_nan.
Proof.
  unfold is_nan. rewrite FloatAxioms.eqb_spec. unfold SFeqb.
  destruct (Prim2SF x) as [s|s| |s m e]; simpl.
  - done.
  - by destruct s.
  - done.
  - destruct s; rewrite Z.compare_refl, Pos.compare_cont_refl; done.
Qed.

Lemma shr_1_nonneg (r : shr_record) : 0 ≤ shr_m r → 0 ≤ shr_m (shr_1 r).
Proof.
  destruct r as [m rb sb]; simpl. destruct m as [|[p|p|]|p]; simpl; lia.
Qed.

Lemma iter_shr_nonneg (p : positive) (r : shr_record) :
  0 ≤ shr_m r → 0 ≤ shr_m (SpecFloat.iter_pos shr_1 p r).
Proof.
  revert r. induction p as [p IH|p IH|]; intros r Hr; simpl;
    auto using shr_1_nonneg.
Qed.

Lemma shr_fexp_nonneg (m e : Z) (l : location) :
  0 ≤ m → 0 ≤ shr_m (shr_fexp prec emax m e l).1.
Proof.
  intros Hm. unfold shr_fexp, shr.
  assert (0 ≤ shr_m (shr_record_of_loc m l)).
  { destruct l as [|[]]; simpl; done. }
  destruct (fexp prec emax (Zdigits2 m + e) - e); simpl; try done.
  by apply iter_shr_nonneg.
Qed.

Lemma round_nonneg (m : Z) (l : location) :
  0 ≤ m → 0 ≤ round_nearest_even m l.
Proof.
  intros Hm. destruct l as [|[]]; simpl; try lia. destruct (Z.even m); lia.
Qed.

(** Rounding a magnitude never yields NaN. *)
Lemma binary_round_aux_not_nan (sx : bool) (m e : Z) (l : location) :
  0 ≤ m → binary_round_aux prec emax sx m e l ≠ S754_nan.
Proof.
  intros Hm. unfold binary_round_aux.
  pose proof (shr_fexp_nonneg m e l Hm) as H1.
  destruct (shr_fexp prec emax m e l) as [r1 e1]; simpl in H1.
  pose proof (shr_fexp_nonneg _ e1 loc_Exact
                (round_nonneg _ (loc_of_shr_record r1) H1)) as H2.
  destruct (shr_fexp prec emax _ e1 loc_Exact) as [r2 e2]; simpl in H2.
  destruct (shr_m r2) as [|p|p]; [done| |lia].
  by destruct (e2 <=? emax - prec).
Qed.

Lemma binary_normalize_not_nan (m e : Z) (sz : bool) :
  binary_normalize prec emax m e sz ≠ S754_nan.
Proof.
  unfold binary_normalize, binary_round.
  destruct m as [|p|p]; [done|..];
    destruct (shl_align _ _ _) as [mz ez]; by apply binary_round_aux_not_nan.
Qed.

(** Adding 100 to a value that is not missing gives one that is not. *)
Lemma float_add_100_not_nan (x : float) :
  is_nan x = false → is_nan (x + 100) = false.
Proof.
  intros Hx. apply not_true_iff_false. apply not_true_iff_false in Hx.
  rewrite is_nan_spec in *. rewrite add_spec.
  change (Prim2SF 100) with (S754_finite false 7036874417766400 (-46)).
  destruct (Prim2SF x) as [s|s| |s m e]; simpl; try done.
  apply binary_normalize_not_nan.
Qed.

(** The comparisons of floats follow their places on the line. *)
Lemma SFleb_key (a b : spec_float) :
  a ≠ S754_nan → b ≠ S754_nan →
  SFleb a b = true ↔ key_le (sf_key a) (sf_key b).
Proof.
  intros Ha Hb. unfold SFleb, key_le.
  destruct a as [sa|sa| |sa ma ea], b as [sb|sb| |sb mb eb]; try done;
    try destruct sa; try destruct sb; simpl; try (split; [lia|done || lia]);
    try (split; [done|lia]).
  - destruct (Z.compare_spec ea eb); simpl.
    + subst. rewrite Pos.compare_cont_spec. simpl.
      destruct (Pos.compare_spec ma mb); simpl; split; try done; lia.
    + split; [done|lia].
    + split; [lia|done].
  - destruct (Z.compare_spec ea eb); simpl.
    + subst. rewrite Pos.compare_cont_spec. simpl.
      destruct (Pos.compare_spec ma mb); simpl; split; try done; lia.
    + split; [lia|done].
    + split; [done|lia].
Qed.

Lemma SFltb_key (a b : spec_float) :
  a ≠ S754_nan → b ≠ S754_nan →
  SFltb a b = true ↔ key_lt (sf_key a) (sf_key b).
Proof.
  intros Ha Hb. unfold SFltb, key_lt.
  destruct a as [sa|sa| |sa ma ea], b as [sb|sb| |sb mb eb]; try done;
    try destruct sa; try destruct sb; simpl; try (split; [lia|done || lia]);
    try (split; [done|lia]).
  - destruct (Z.compare_spec ea eb); simpl.
    + subst. rewrite Pos.compare_cont_spec. simpl.
      destruct (Pos.compare_spec ma mb); simpl; split; try done; lia.
    + split; [done|lia].
    + split; [lia|done].
  - destruct (Z.compare_spec ea eb); simpl.
    + subst. rewrite Pos.compare_cont_spec. simpl.
      destruct (Pos.compare_spec ma mb); simpl; split; try done; lia.
    + split; [lia|done].
    + split; [done|lia].
Qed.

Lemma not_nan_spec (x : float) : is_nan x = false ↔ Prim2SF x ≠ S754_nan.
Proof. rewrite <- is_nan_spec. by destruct (is_nan x). Qed.

Lemma fle_key (x y : float) :
  is_nan x = false → is_nan y = false →
  fle x y ↔ key_le (fkey x) (fkey y).
Proof.
  intros Hx%not_nan_spec Hy%not_nan_spec. unfold fle.
  rewrite leb_spec. by apply SFleb_key.
Qed.

Lemma ltb_key (x y : float) :
  is_nan x = false → is_nan y = false →
  PrimFloat.ltb x y = true ↔ key_lt (fkey x) (fkey y).
Proof.
  intros Hx%not_nan_spec Hy%not_nan_spec.
  rewrite ltb_spec. by apply SFltb_key.
Qed.

Lemma fle_refl (x : float) : is_nan x = false → fle x x.
Proof. intros Hx. apply fle_key; [done..|]. unfold key_le. lia. Qed.

Lemma fle_trans (x y z : float) :
  is_nan x = false → is_nan y = false → is_nan z = false →
  fle x y → fle y z → fle x z.
Proof.
  intros Hx Hy Hz. rewrite !fle_key by done. unfold key_le. lia.
Qed.

Lemma ltb_fle (x y : float) :
  is_nan x = false → is_nan y = false →
  if PrimFloat.ltb y x then fle y x else fle x y.
Proof.
  intros Hx Hy. destruct (PrimFloat.ltb y x) eqn:E.
  - apply ltb_key in E; [|done..]. apply fle_key; [done..|].
    unfold key_lt, key_le in *. lia.
  - apply fle_key; [done..|].
    assert (¬ key_lt (fkey y) (fkey x)) as Hn.
    { intros H. apply ltb_key in H; [|done..]. congruence. }
    unfold key_lt, key_le in *. lia.
Qed.

(** ** Ranks of the three-player catalog *)

(** C1: on the catalog A(100, adp 5), B(90, adp 1), C(90, adp 2), whatever
    the positions and teams, [process_data] keeps the three rows in order
    and gives final ranks 1, 2, 2 (the tie shares the better rank), ADP
    ranks 3, 1, 2 and value scores 2, -1, 0; so does the function of
    [app_web.py]. *)
Theorem catalog3_ranks (pa pb pc ta tb tc : string) :
  let cat := catalog3 pa pb pc ta tb tc in
  process_data cat ≫= column "Name" = Ok [CStr "A"; CStr "B"; CStr "C"]
  ∧ process_data cat ≫= column "FinalAdjGPP_Rank" = Ok [CInt 1; CInt 2; CInt 2]
  ∧ process_data cat ≫= column "ADP_Rank" = Ok [CInt 3; CInt 1; CInt 2]
  ∧ process_data cat ≫= column "ValueScore" = Ok [CInt 2; CInt (-1); CInt 0]
  ∧ Original.process_data cat ≫= column "Name"
    = Ok [CStr "A"; CStr "B"; CStr "C"]
  ∧ Original.process_data cat ≫= column "FinalAdjGPP_Rank"
    = Ok [CInt 1; CInt 2; CInt 2]
  ∧ Original.process_data cat ≫= column "ADP_Rank"
    = Ok [CInt 3; CInt 1; CInt 2]
  ∧ Original.process_data cat ≫= column "ValueScore"
    = Ok [CInt 2; CInt (-1); CInt 0].
Proof. repeat split; vm_compute; reflexivity. Qed.

(** ** Generic facts on results, masks and columns *)

Lemma bind_Ok {A B} (m : result A) (f : A → result B) (b : B) :
  m ≫= f = Ok b → ∃ a, m = Ok a ∧ f a = Ok b.
Proof. destruct m as [a|e]; [by exists a|done]. Qed.

Lemma bind_Ok_l {A B} (a : A) (f : A → result B) : Ok a ≫= f = f a.
Proof. reflexivity. Qed.

(** Split a successful chain of binds into its successful steps. *)
Ltac inv_bind H :=
  repeat match type of H with
         | _ ≫= _ = Ok _ =>
             let x := fresh "x" in
             let E := fresh "E" in
             apply bind_Ok in H as (x & E & H)
         end;
  try match type of H with Ok _ = Ok _ => injection H as H end.

Lemma mapR_Forall2 {A B} (f : A → result B) (l : list A) (k : list B) :
  mapR f l = Ok k → Forall2 (fun x y => f x = Ok y) l k.
Proof.
  revert k. induction l as [|x l IH]; intros k; simpl.
  - intros [= <-]. constructor.
  - destruct (f x) as [y|] eqn:Ex; simpl; [|done].
    destruct (mapR f l) as [ys|] eqn:El; simpl; [|done].
    intros [= <-]. constructor; [done|]. by apply IH.
Qed.

Lemma column_set_ne (c c' : string) (s : series) (df : DataFrame) :
  c ≠ c' → cols (set_column c s df) !! c' = cols df !! c'.
Proof. intros. by apply lookup_insert_ne. Qed.

Lemma column_set_eq (c : string) (s : series) (df : DataFrame) :
  cols (set_column c s df) !! c = Some s.
Proof. apply lookup_insert_eq. Qed.

(** ** Live score *)

Lemma live_score_frame (df df' : DataFrame) (e : float) :
  calculate_live_score df e = Ok df' →
  ∃ gpp ls,
    cols df !! "FinalAdjGPP" = Some gpp
    ∧ Forall2 (fun g l => py_mul g (CFloat e) = Ok l) gpp ls
    ∧ df' = set_column "LiveScore" ls df.
Proof.
  unfold calculate_live_score, column.
  destruct (cols df !! "FinalAdjGPP") as [gpp|] eqn:Eg; simpl; [|done].
  destruct (mapR _ gpp) as [ls|] eqn:El; simpl; [|done].
  intros [= <-]. exists gpp, ls. eauto using mapR_Forall2.
Qed.

(** Scaling a live score computed at emphasis 1.0 gives the live score at
    the new emphasis. *)
Lemma py_mul_rescale (g l1 l2 : cell) (e : float) :
  py_mul g (CFloat 1.0) = Ok l1 →
  py_mul g (CFloat e) = Ok l2 →
  py_mul l1 (CFloat e) = Ok l2.
Proof.
  destruct g as [z|x|s|b]; simpl; try done; intros [= <-] [= <-]; simpl;
    by rewrite float_mul_1_r.
Qed.

Lemma mul_floats_Forall2 (xs : list float) (e : float) (ls : series) :
  Forall2 (fun g l => py_mul g (CFloat e) = Ok l) (CFloat <$> xs) ls →
  ls = CFloat <$> ((fun x => (x * e)%float) <$> xs).
Proof.
  revert ls. induction xs as [|x xs IH]; intros ls F;
    rewrite ?fmap_cons in F; inversion F as [|? l ? ls' Hl F']; subst;
    [done|].
  rewrite !fmap_cons. f_equal; [|by apply IH].
  cbn in Hl. by injection Hl as <-.
Qed.

Lemma py_mul_same (g l1 l2 : cell) (e : float) :
  py_mul g (CFloat e) = Ok l1 → py_mul g (CFloat e) = Ok l2 → l1 = l2.
Proof. congruence. Qed.

(** C5, as the code has it: the live score of every row is
    [FinalAdjGPP * emphasis] (for a float projection [x] the float
    [x * emphasis]).  Computed again after the emphasis has moved from
    [e1] to [e2], it is [FinalAdjGPP * e2], whatever [e1] was; no other
    column, nor the number of rows, changes; with [e2 = e1] the table is
    left as it is.  The new score is the old one times [e2] when [e1] is
    1.0; it is not the old score scaled by the factor of the change in
    general. *)
Theorem live_score_rescaled (df df1 df2 : DataFrame) (e1 e2 : float) :
  calculate_live_score df e1 = Ok df1 →
  calculate_live_score df1 e2 = Ok df2 →
  ∃ gpp ls1 ls2,
    cols df !! "FinalAdjGPP" = Some gpp
    ∧ cols df1 !! "LiveScore" = Some ls1
    ∧ cols df2 !! "LiveScore" = Some ls2
    ∧ Forall2 (fun g l => py_mul g (CFloat e1) = Ok l) gpp ls1
    ∧ Forall2 (fun g l => py_mul g (CFloat e2) = Ok l) gpp ls2
    ∧ (∀ xs, gpp = CFloat <$> xs →
         ls1 = CFloat <$> ((fun x => (x * e1)%float) <$> xs)
         ∧ ls2 = CFloat <$> ((fun x => (x * e2)%float) <$> xs))
    ∧ (e1 = 1.0%float →
       Forall2 (fun l1 l2 => py_mul l1 (CFloat e2) = Ok l2) ls1 ls2)
    ∧ (e2 = e1 → df2 = df1)
    ∧ nrows df2 = nrows df1
    ∧ ∀ c, c ≠ "LiveScore" → cols df2 !! c = cols df1 !! c.
Proof.
  intros H1 H2.
  apply live_score_frame in H1 as (gpp & ls1 & Hg & F1 & ->).
  apply live_score_frame in H2 as (gpp' & ls2 & Hg' & F2 & ->).
  rewrite column_set_ne in Hg' by done.
  assert (gpp' = gpp) as -> by congruence.
  exists gpp, ls1, ls2. rewrite !column_set_eq.
  split; [done|]. split; [done|]. split; [done|]. split; [done|].
  split; [done|]. split; [|split; [|split; [|split]]].
  - intros xs ->. split; by apply mul_floats_Forall2.
  - intros ->. clear Hg Hg'. revert ls2 F2.
    induction F1 as [|g l1 gpp ls1 Hl1 F1 IH]; intros ls2 F2;
      inversion F2 as [|? l2 ? ls2' Hl2 F2']; subst; constructor.
    + by eapply py_mul_rescale.
    + by apply IH.
  - intros ->. assert (ls2 = ls1) as ->.
    { clear Hg Hg'. revert ls2 F2.
      induction F1 as [|g l1 gpp ls1 Hl1 F1 IH]; intros ls2 F2;
        inversion F2 as [|? l2 ? ls2' Hl2 F2']; subst; [done|].
      f_equal; [by eapply py_mul_same|by apply IH]. }
    unfold set_column. cbn [nrows cols]. by rewrite insert_insert_eq.
  - done.
  - intros c Hc. by rewrite column_set_ne.
Qed.

Lemma live_score_rescaled_witness :
  ∃ df1 df2,
    calculate_live_score board2 1.2 = Ok df1
    ∧ calculate_live_score df1 1.4 = Ok df2
    ∧ cols df1 !! "LiveScore" = Some [CFloat 120; CFloat 108.6]
    ∧ cols df2 !! "LiveScore" = Some [CFloat 140; CFloat 126.69999999999999]
    ∧ ∃ gpp ls1 ls2,
        cols board2 !! "FinalAdjGPP" = Some gpp
        ∧ cols df1 !! "LiveScore" = Some ls1
        ∧ cols df2 !! "LiveScore" = Some ls2
        ∧ Forall2 (fun g l => py_mul g (CFloat 1.2) = Ok l) gpp ls1
        ∧ Forall2 (fun g l => py_mul g (CFloat 1.4) = Ok l) gpp ls2
        ∧ (∀ xs, gpp = CFloat <$> xs →
             ls1 = CFloat <$> ((fun x => (x * 1.2)%float) <$> xs)
             ∧ ls2 = CFloat <$> ((fun x => (x * 1.4)%float) <$> xs))
        ∧ (1.2%float = 1.0%float →
           Forall2 (fun l1 l2 => py_mul l1 (CFloat 1.4) = Ok l2) ls1 ls2)
        ∧ (1.4%float = 1.2%float → df2 = df1)
        ∧ nrows df2 = nrows df1
        ∧ ∀ c, c ≠ "LiveScore" → cols df2 !! c = cols df1 !! c.
Proof.
  eexists _, _.
  split; [vm_compute; reflexivity|].
  split; [vm_compute; reflexivity|].
  split; [vm_compute; reflexivity|].
  split; [vm_compute; reflexivity|].
  eapply live_score_rescaled; vm_compute; reflexivity.
Defined.

(** The claim's scaling fails away from 1.0.  From emphasis 1.2 to 1.4 the
    score of the second row of [board2] (projection 90.5) moves from 108.6
    to 126.69999999999999; the old score times the factor of the change,
    1.4 / 1.2, is 126.7, and the old score times 1.4 is 152.04. *)
Lemma live_score_factor_inexact :
  calculate_live_score board2 1.2 ≫= column "LiveScore"
  = Ok [CFloat 120; CFloat 108.6]
  ∧ (calculate_live_score board2 1.2
       ≫= fun df1 => calculate_live_score df1 1.4) ≫= column "LiveScore"
    = Ok [CFloat 140; CFloat 126.69999999999999]
  ∧ (108.6 * (1.4 / 1.2))%float = 126.7%float
  ∧ PrimFloat.eqb (108.6 * (1.4 / 1.2)) 126.69999999999999 = false
  ∧ PrimFloat.eqb (108.6 * 1.4) 126.69999999999999 = false.
Proof. repeat split; vm_compute; reflexivity. Qed.

(** ** The draft state *)

Lemma insert_all_lookup (rows : board) (m : gmap string Z) (P : Z → Prop) :
  (∀ l id, m !! l = Some id → P id) →
  (∀ r, r ∈ rows → P r.2) →
  ∀ l id, foldl (fun m r => <[r.1 := r.2]> m) m rows !! l = Some id → P id.
Proof.
  revert m. induction rows as [|r rows IH]; intros m Hm Hr l id; simpl.
  - apply Hm.
  - apply IH.
    + intros l' id'. destruct (decide (r.1 = l')) as [<-|Hne].
      * rewrite lookup_insert_eq. intros [= <-]. apply Hr. by left.
      * rewrite lookup_insert_ne by done. apply Hm.
    + intros r' Hr'. apply Hr. by right.
Qed.

(** The select box offers available players only. *)
Lemma player_options_available (display_df : board) (s : session)
    (l : string) (id : Z) :
  player_options display_df s !! l = Some id → id ∉ drafted_players s.
Proof.
  unfold player_options.
  apply (insert_all_lookup _ _ (fun id => id ∉ drafted_players s)).
  - intros l' id'. by rewrite lookup_empty.
  - intros r Hr. unfold available_players in Hr.
    by apply list_elem_of_filter in Hr as [? _].
Qed.

Lemma consistent_init : consistent init_session_state.
Proof. split; [constructor|]. simpl. intros id Hid. by apply elem_of_nil in Hid. Qed.

Lemma consistent_draft (id : Z) (s : session) :
  id ∉ drafted_players s → consistent s → consistent (draft id s).
Proof.
  intros Hid [Hnd Hsub]. split; simpl.
  - apply NoDup_app. split; [done|]. split; [|apply NoDup_singleton].
    intros x Hx Hx'. apply list_elem_of_singleton in Hx' as ->. auto.
  - intros x Hx. apply elem_of_app in Hx as [Hx|Hx].
    + apply elem_of_union_r. auto.
    + apply list_elem_of_singleton in Hx as ->. apply elem_of_union_l.
      by apply elem_of_singleton.
Qed.

Lemma consistent_mark (id : Z) (s : session) :
  consistent s → consistent (mark_drafted id s).
Proof.
  intros [Hnd Hsub]. split; simpl; [done|].
  intros x Hx. apply elem_of_union_r. auto.
Qed.

Lemma consistent_undo (s : session) : consistent s → consistent (undo s).
Proof.
  intros [Hnd Hsub]. unfold undo.
  destruct (last (my_roster s)) as [x|] eqn:El; [|done].
  apply last_Some in El as [l El]. rewrite El in *. rewrite removelast_last.
  apply NoDup_app in Hnd as (Hl & Hx & _). split; simpl; [done|].
  intros y Hy. apply elem_of_difference. split.
  - apply Hsub, elem_of_app. by left.
  - intros Hyx. apply elem_of_singleton in Hyx as ->.
    apply (Hx x Hy). by left.
Qed.

Lemma consistent_step (s : session) (ev : event) :
  consistent s → consistent (step s ev).1.
Proof.
  intros Hs. destruct ev as [| | |d sel|d sel]; simpl.
  - apply consistent_init.
  - apply consistent_init.
  - by apply consistent_undo.
  - destruct (player_options d s !! sel) as [id|] eqn:E; simpl; [|done].
    apply consistent_draft; [|done]. by eapply player_options_available.
  - destruct (player_options d s !! sel) as [id|] eqn:E; simpl; [|done].
    by apply consistent_mark.
Qed.

Lemma consistent_run (evs : list event) (s : session) :
  consistent s → consistent (run evs s).
Proof.
  revert s. induction evs as [|ev evs IH]; intros s Hs; simpl; [done|].
  apply IH. by apply consistent_step.
Qed.

(** C2: after any sequence of draft, mark-as-drafted, undo and reset
    actions from the empty session, every id of [my_roster] is in
    [drafted_players] (and no id is on the roster twice). *)
Theorem roster_within_drafted (evs : list event) :
  Forall (fun id => id ∈ drafted_players (run evs init_session_state))
         (my_roster (run evs init_session_state))
  ∧ NoDup (my_roster (run evs init_session_state)).
Proof.
  destruct (consistent_run evs _ consistent_init) as [Hnd Hsub].
  split; [by apply Forall_forall|done].
Qed.

(** C3: undo on an empty roster changes nothing; on a roster ending in
    [X] it takes [X] off the roster and out of the drafted set; undo right
    after drafting an available player [X] gives back the session as it
    was, also through the buttons, for any board and label that select
    [X]. *)
Theorem undo_after_draft (d : gset Z) (l : list Z) (s : session) (X : Z) :
  X ∉ drafted_players s →
  undo (mkSession d []) = mkSession d []
  ∧ undo (mkSession d (l ++ [X])) = mkSession (d ∖ {[X]}) l
  ∧ undo (draft X s) = s
  ∧ ∀ display_df selected_player,
      player_options display_df s !! selected_player = Some X →
      run [DraftToMyTeam display_df selected_player; UndoLastPick] s = s.
Proof.
  intros HX.
  assert (Hundo : undo (draft X s) = s).
  { unfold undo, draft; simpl. rewrite last_snoc, removelast_last.
    destruct s as [ds r]; simpl in *. f_equal.
    apply set_eq. intros x.
    rewrite elem_of_difference, elem_of_union, elem_of_singleton.
    split; [by intros [[->|?] ?]|].
    intros Hx. split; [by right|]. by intros ->. }
  split; [reflexivity|]. split; [|split; [done|]].
  - unfold undo; simpl. by rewrite last_snoc, removelast_last.
  - intros display_df selected_player Hsel. unfold run. simpl.
    by rewrite Hsel.
Qed.

Lemma undo_after_draft_witness :
  (3 ∉ drafted_players taken7)
  ∧ undo (mkSession {[7]} []) = mkSession {[7]} []
  ∧ undo (mkSession {[7]} [5; 3]) = mkSession ({[7]} ∖ {[3]}) [5]
  ∧ undo (draft 3 taken7) = taken7
  ∧ run [DraftToMyTeam [("C (F, BOS)", 3)] "C (F, BOS)"; UndoLastPick] taken7
    = taken7.
Proof.
  assert (H : 3 ∉ drafted_players taken7).
  { simpl. rewrite elem_of_singleton. lia. }
  destruct (undo_after_draft {[7]} [5] taken7 3 H) as (H1 & H2 & H3 & H4).
  split; [exact H|]. split; [exact H1|]. split; [exact H2|].
  split; [exact H3|]. apply H4. reflexivity.
Defined.

(** Without the select box in front of it the handler does not keep the
    roster within the drafted set: drafting player 1 twice and undoing once
    leaves 1 on the roster and out of the set. *)
Lemma unguarded_draft_breaks :
  my_roster (undo (draft 1 (draft 1 init_session_state))) = [1]
  ∧ 1 ∉ drafted_players (undo (draft 1 (draft 1 init_session_state))).
Proof.
  split; [reflexivity|]. simpl.
  rewrite elem_of_difference, elem_of_singleton. tauto.
Qed.

(** The draft handler itself checks nothing and reports success: applied
    to player 1, already on the roster, it adds the pick a second time.
    Through the buttons the same request does nothing and reports nothing:
    player 1 is not among the options. *)
Lemma draft_handler_unchecked :
  1 ∈ drafted_players picked1
  ∧ draft 1 picked1 ≠ picked1
  ∧ my_roster (draft 1 picked1) = [1; 1]
  ∧ step picked1 (DraftToMyTeam board1 "A (G, LAL)") = (picked1, [])
  ∧ step picked1 (MarkAsDrafted board1 "A (G, LAL)") = (picked1, []).
Proof.
  split; [change (1 ∈ ({[1]} : gset Z)); by apply elem_of_singleton_2|].
  split; [intros [= _ H]; discriminate H|].
  split; [reflexivity|].
  split; reflexivity.
Qed.

(** C4, as the code has it: a drafted id is never among [player_options],
    so a draft button either does nothing and reports nothing, or acts on
    an id that was available (another one) and reports that pick; no
    rejection is ever reported. *)
Theorem draft_buttons_guarded (s : session) (display_df : board)
    (selected_player : string) (id : Z) :
  id ∈ drafted_players s →
  player_options display_df s !! selected_player ≠ Some id
  ∧ (step s (DraftToMyTeam display_df selected_player) = (s, [])
     ∨ ∃ id', id' ≠ id ∧ (id' ∉ drafted_players s)
         ∧ step s (DraftToMyTeam display_df selected_player)
           = (draft id' s, [Success ("Drafted " +:+ selected_player)]))
  ∧ (step s (MarkAsDrafted display_df selected_player) = (s, [])
     ∨ ∃ id', id' ≠ id ∧ (id' ∉ drafted_players s)
         ∧ step s (MarkAsDrafted display_df selected_player)
           = (mark_drafted id' s,
              [Info ("Marked " +:+ selected_player +:+ " as drafted")])).
Proof.
  intros Hid.
  assert (Hopt : ∀ id', player_options display_df s !! selected_player = Some id'
                        → id' ≠ id ∧ id' ∉ drafted_players s).
  { intros id' H. apply player_options_available in H. split; [|done].
    by intros ->. }
  split; [intros H; by destruct (Hopt _ H)|].
  simpl. destruct (player_options display_df s !! selected_player) as [id'|];
    [|by split; left].
  destruct (Hopt id' eq_refl). split; right; exists id'; done.
Qed.

Lemma draft_buttons_guarded_witness :
  1 ∈ drafted_players picked1
  ∧ player_options board1 picked1 !! "A (G, LAL)" ≠ Some 1
  ∧ step picked1 (DraftToMyTeam board1 "A (G, LAL)") = (picked1, []).
Proof.
  assert (H : 1 ∈ drafted_players picked1)
    by (change (1 ∈ ({[1]} : gset Z)); by apply elem_of_singleton_2).
  destruct (draft_buttons_guarded picked1 board1 "A (G, LAL)" 1 H) as (H1 & _ & _).
  split; [exact H|]. split; [exact H1|]. reflexivity.
Defined.

(** ** Stack score *)





(** ** Z-scores of a constant column *)

(** C7 at a catalog of two players with equal projections: nothing is
    raised, the handler is not entered, and [zFinal] and [ValueZ] are NaN in
    every row, not 0; the same holds in [app_web.py]. *)
Theorem zscore_flat_is_nan :
  process_data flat2 ≫= column "FinalAdjGPP" = Ok [CFloat 90; CFloat 90]
  ∧ process_data flat2 ≫= column "zFinal" = Ok [CFloat nan; CFloat nan]
  ∧ process_data flat2 ≫= column "ValueZ" = Ok [CFloat nan; CFloat nan]
  ∧ process_data flat2 ≫= column "ValueAlert" = Ok [CBool false; CBool false]
  ∧ Original.process_data flat2 ≫= column "ValueZ"
    = Ok [CFloat nan; CFloat nan].
Proof. repeat split; vm_compute; reflexivity. Qed.

(** ** Rows and columns through [process_data] *)

Lemma sel_fmap {A B} (f : A → B) (m : list bool) (l : list A) :
  sel m (f <$> l) = f <$> sel m l.
Proof.
  revert l. induction m as [|b m IH]; intros [|x l]; simpl; try done.
  destruct b; simpl; by rewrite IH.
Qed.

Lemma sel_sublist {A} (m : list bool) (l : list A) : sel m l `sublist_of` l.
Proof.
  revert l. induction m as [|b m IH]; intros [|x l]; simpl;
    try apply sublist_nil_l.
  destruct b; [apply sublist_skip|apply sublist_cons]; apply IH.
Qed.

Lemma select_rows_column (m : list bool) (df : DataFrame) (c : string) :
  cols (select_rows m df) !! c = sel m <$> cols df !! c.
Proof. apply lookup_fmap. Qed.

Lemma dropna_select (cs : list string) (df out : DataFrame) :
  dropna cs df = Ok out → ∃ m, out = select_rows m df.
Proof.
  unfold dropna. intros H. inv_bind H. eauto.
Qed.

Lemma keep_positive_select (df out : DataFrame) :
  keep_positive df = Ok out → ∃ m, out = select_rows m df.
Proof.
  unfold keep_positive. intros H. inv_bind H. eauto.
Qed.

Lemma fill_adp_other (df out : DataFrame) (c : string) :
  fill_adp df = Ok out → c ≠ "ADP" → cols out !! c = cols df !! c.
Proof.
  unfold fill_adp. destruct (cols df !! "ADP") as [adp|]; [|by intros [= <-]].
  intros H Hc. inv_bind H. subst out. by apply column_set_ne.
Qed.

Lemma ensure_col_other (df : DataFrame) (cd : string * cell) (c : string) :
  c ≠ cd.1 → cols (ensure_col df cd) !! c = cols df !! c.
Proof.
  intros Hc. unfold ensure_col, set_scalar.
  destruct (cols df !! cd.1); by apply column_set_ne.
Qed.

Lemma ensure_all_other (l : list (string * cell)) (df : DataFrame) (c : string) :
  c ∉ l.*1 → cols (foldl ensure_col df l) !! c = cols df !! c.
Proof.
  revert df. induction l as [|cd l IH]; intros df Hc; simpl; [done|].
  rewrite fmap_cons, not_elem_of_cons in Hc. destruct Hc as [Hc Hl].
  rewrite IH by done. by apply ensure_col_other.
Qed.

Lemma derived_cols_ne (c : string) :
  c ∉ derived_cols →
  c ≠ "FinalAdjGPP_Rank" ∧ c ≠ "ADP_Rank" ∧ c ≠ "ValueScore"
  ∧ c ≠ "zFinal" ∧ c ≠ "zADP" ∧ c ≠ "ValueZ" ∧ c ≠ "ValueAlert".
Proof.
  intros Hc. repeat split; intros ->; apply Hc; unfold derived_cols;
    repeat first [apply list_elem_of_here | apply list_elem_of_further].
Qed.

Lemma add_ranks_other (df out : DataFrame) (c : string) :
  add_ranks df = Ok out → c ∉ derived_cols → cols out !! c = cols df !! c.
Proof.
  unfold add_ranks. intros H Hc.
  apply derived_cols_ne in Hc as (? & ? & ? & _).
  inv_bind H. subst out. by rewrite !column_set_ne.
Qed.

Lemma add_zscores_other (df : DataFrame) (c : string) :
  c ≠ "zFinal" → c ≠ "zADP" → c ≠ "ValueZ" →
  cols (add_zscores df) !! c = cols df !! c.
Proof.
  intros H1 H2 H3. unfold add_zscores, try_except, set_scalar.
  match goal with |- context [match ?m with Ok _ => _ | Raise _ => _ end] =>
    destruct m as [d|] eqn:Ez
  end.
  - inv_bind Ez. subst d. by rewrite !column_set_ne.
  - by rewrite !column_set_ne.
Qed.

Lemma add_value_alert_other (df out : DataFrame) (c : string) :
  add_value_alert df = Ok out → c ≠ "ValueAlert" →
  cols out !! c = cols df !! c.
Proof.
  unfold add_value_alert. intros H Hc.
  inv_bind H. subst out. by rewrite column_set_ne.
Qed.

(** A column that [process_data] does not compute reaches the result as it
    stood after the filling of defaults, with the rows of the two filters
    taken out. *)
Lemma process_data_rows (df out : DataFrame) :
  process_data df = Ok out →
  ∃ df1 m1 m2,
    fill_adp (ensure_id df) = Ok df1
    ∧ ∀ c, c ∉ derived_cols →
        cols out !! c = sel m2 <$> (sel m1 <$> cols (ensure_required df1) !! c).
Proof.
  unfold process_data. intros H.
  apply bind_Ok in H as (df1 & E1 & H).
  apply bind_Ok in H as (df2 & E2 & H).
  apply bind_Ok in H as (df3 & E3 & H).
  apply bind_Ok in H as (df4 & E4 & H).
  apply dropna_select in E2 as [m1 ->].
  apply keep_positive_select in E3 as [m2 ->].
  exists df1, m1, m2. split; [done|]. intros c Hc.
  pose proof (derived_cols_ne c Hc) as (_ & _ & _ & ? & ? & ? & ?).
  rewrite (add_value_alert_other _ _ _ H), add_zscores_other,
    (add_ranks_other _ _ _ E4 Hc) by done.
  by rewrite !select_rows_column.
Qed.

(** The ADP ranks of the result are the ranks of its ADP column. *)
Lemma process_data_adp_rank (df out : DataFrame) :
  process_data df = Ok out →
  ∃ adp ranks,
    cols out !! "ADP" = Some adp
    ∧ cols out !! "ADP_Rank" = Some ranks
    ∧ rank_min true adp ≫= astype_int = Ok ranks.
Proof.
  unfold process_data. intros H.
  apply bind_Ok in H as (df1 & E1 & H).
  apply bind_Ok in H as (df2 & E2 & H).
  apply bind_Ok in H as (df3 & E3 & H).
  apply bind_Ok in H as (df4 & E4 & H).
  rewrite !(add_value_alert_other _ _ _ H), !add_zscores_other by done.
  clear H. unfold add_ranks in E4.
  apply bind_Ok in E4 as (gpp & Eg & E4).
  apply bind_Ok in E4 as (fr & Ef & E4).
  apply bind_Ok in E4 as (fr' & Ef' & E4).
  apply bind_Ok in E4 as (adp & Ea & E4).
  apply bind_Ok in E4 as (ar & Er & E4).
  apply bind_Ok in E4 as (ar' & Er' & E4).
  apply bind_Ok in E4 as (vs & Ev & E4).
  injection E4 as <-.
  unfold column in Ea. rewrite column_set_ne in Ea by done.
  destruct (cols df3 !! "ADP") as [adp'|] eqn:Eadp; [|done].
  injection Ea as ->.
  exists adp, ar'. split; [|split].
  - by rewrite !column_set_ne.
  - by rewrite column_set_ne, column_set_eq.
  - by rewrite Er.
Qed.

(** ** Player ids *)

Lemma not_in_names (c : string) (l : list string) :
  forallb (fun x => negb (String.eqb c x)) l = true → c ∉ l.
Proof.
  induction l as [|x l IH]; simpl; intros H.
  - apply not_elem_of_nil.
  - apply andb_prop in H as [Hx Hl]. apply not_elem_of_cons. split; [|auto].
    intros ->. by rewrite String.eqb_refl in Hx.
Qed.

Lemma ensure_id_absent (df : DataFrame) :
  has_column "ID" df = false →
  cols (ensure_id df) !! "ID"
  = Some (CInt <$> (Z.of_nat <$> seq 0 (nrows df))).
Proof. unfold ensure_id. intros ->. apply column_set_eq. Qed.

Lemma sublist_sorted {A} (R : A → A → Prop) (l k : list A) :
  l `sublist_of` k → StronglySorted R k → StronglySorted R l.
Proof.
  induction 1 as [|x l k Hlk IH|x l k Hlk IH]; intros Hk; [done|..];
    apply StronglySorted_cons in Hk as [Hx Hk].
  - apply StronglySorted_cons. split; [|auto].
    apply Forall_forall. intros y Hy.
    rewrite Forall_forall in Hx. by apply Hx, (sublist_subseteq l k).
  - auto.
Qed.

Lemma sublist_full {A} (l k : list A) :
  l `sublist_of` k → length l = length k → l = k.
Proof.
  induction 1 as [|x l k Hlk IH|x l k Hlk IH]; simpl; intros Hlen; [done|..].
  - f_equal. apply IH. lia.
  - apply sublist_length in Hlk. lia.
Qed.

Lemma seq_sorted (j n : nat) : StronglySorted lt (seq j n).
Proof.
  revert j. induction n as [|n IH]; intros j; simpl; [constructor|].
  apply StronglySorted_cons. split; [|apply IH].
  apply Forall_forall. intros y Hy. apply elem_of_seq in Hy. lia.
Qed.

(** With one row dropped in the middle the ids that remain are 0 and 2. *)
Lemma ids_keep_gaps :
  process_data gapped3 ≫= column "Name" = Ok [CStr "A"; CStr "C"]
  ∧ process_data gapped3 ≫= column "ID" = Ok [CInt 0; CInt 2].
Proof. split; vm_compute; reflexivity. Qed.

Lemma sel_Forall2 {A B} (R : A → B → Prop) (m : list bool) (l : list A)
    (k : list B) :
  Forall2 R l k → Forall2 R (sel m l) (sel m k).
Proof.
  intros F. revert m. induction F as [|x y l k Hxy _ IH]; intros [|b m];
    cbn [sel]; try constructor.
  destruct b; [constructor; [done|]|]; apply IH.
Qed.

(** The cell at each position of a column. *)
Lemma positions_lookup {A} (s : list A) :
  Forall2 (fun i x => s !! i = Some x) (seq 0 (length s)) s.
Proof.
  apply Forall2_same_length_lookup_2; [by rewrite length_seq|].
  intros i j x Hj Hx. apply lookup_seq in Hj as [-> _]. done.
Qed.

(** C10, as the code has it: ids are given on load order before any row is
    dropped, so each row that remains carries its load position as its id:
    the ids are picked in order out of 0 .. n-1, they are distinct and
    increasing, a dropped row leaves its id unused, and the cells of the
    row with id [i] in a column the function only passes on (Name,
    Position, Team, ...) are the cells at position [i] of the loaded
    table.  With every row kept the ids are 0 .. n-1. *)
Theorem ids_follow_load_order (df out : DataFrame) :
  has_column "ID" df = false →
  process_data df = Ok out →
  ∃ ids : list nat,
    cols out !! "ID" = Some (CInt <$> (Z.of_nat <$> ids))
    ∧ ids `sublist_of` seq 0 (nrows df)
    ∧ NoDup ids
    ∧ StronglySorted lt ids
    ∧ (length ids = nrows df → ids = seq 0 (nrows df))
    ∧ ∀ c s,
        c ∉ derived_cols → c ∉ required_cols.*1 →
        cols df !! c = Some s → length s = nrows df →
        ∃ s', cols out !! c = Some s'
              ∧ Forall2 (fun i x => s !! i = Some x) ids s'.
Proof.
  intros Hid H.
  apply process_data_rows in H as (df1 & m1 & m2 & E1 & Hraw).
  exists (sel m2 (sel m1 (seq 0 (nrows df)))).
  assert (Hsub : sel m2 (sel m1 (seq 0 (nrows df))) `sublist_of` seq 0 (nrows df)).
  { etrans; apply sel_sublist. }
  split; [|split; [done|split; [|split; [|split]]]].
  - rewrite Hraw by (by apply not_in_names).
    unfold ensure_required.
    rewrite ensure_all_other by (by apply not_in_names).
    rewrite (fill_adp_other _ _ "ID" E1) by done.
    rewrite ensure_id_absent by done. simpl. by rewrite !sel_fmap.
  - eapply sublist_NoDup; [apply NoDup_seq|exact Hsub].
  - apply (sublist_sorted _ _ _ Hsub), seq_sorted.
  - intros Hlen. apply sublist_full; [done|]. by rewrite length_seq.
  - intros c s Hc Hreq Hs Hlen.
    exists (sel m2 (sel m1 s)). split.
    + rewrite Hraw by done. unfold ensure_required.
      rewrite ensure_all_other by done.
      assert (c ≠ "ADP") as Hadp.
      { intros ->. apply Hreq. unfold required_cols. cbn [fmap list_fmap fst].
        repeat first [apply list_elem_of_here | apply list_elem_of_further]. }
      rewrite (fill_adp_other _ _ c E1) by done.
      assert (cols (ensure_id df) !! c = Some s) as ->; [|done].
      unfold ensure_id. rewrite Hid. rewrite column_set_ne; [done|].
      intros <-. unfold has_column in Hid.
      apply bool_decide_eq_false in Hid. apply Hid. by rewrite Hs.
    + do 2 apply sel_Forall2. rewrite <- Hlen. apply positions_lookup.
Qed.

Lemma ids_follow_load_order_witness :
  ∃ out ids,
    process_data gapped3 = Ok out
    ∧ cols out !! "ID" = Some (CInt <$> (Z.of_nat <$> ids))
    ∧ ids `sublist_of` seq 0 3
    ∧ NoDup ids
    ∧ StronglySorted lt ids
    ∧ (length ids = 3%nat → ids = seq 0 3)
    ∧ ∀ c s,
        c ∉ derived_cols → c ∉ required_cols.*1 →
        cols gapped3 !! c = Some s → length s = 3%nat →
        ∃ s', cols out !! c = Some s'
              ∧ Forall2 (fun i x => s !! i = Some x) ids s'.
Proof.
  destruct (process_data gapped3) as [out|e] eqn:E; [|by vm_compute in E].
  destruct (ids_follow_load_order gapped3 out eq_refl E) as (ids & H).
  exists out, ids. split; [reflexivity|exact H].
Defined.

(** ** Missing ADP *)

#[local] Arguments is_nan : simpl never.

Lemma series_max_floats (xs : list float) (m : option float) :
  series_max_from (NFloat <$> m) (CFloat <$> xs)
  = Ok (NFloat <$> foldl max_step m xs).
Proof.
  revert m. induction xs as [|x xs IH]; intros m; [done|].
  rewrite fmap_cons. cbn [series_max_from isna foldl]. unfold max_step at 2.
  destruct (is_nan x); [apply IH|]. cbn [as_num mbind result_bind].
  rewrite <- IH. destruct m as [y|]; simpl; [|done].
  by destruct (PrimFloat.ltb y x).
Qed.

(** The largest observed value is one of the values, is not missing, and
    no observed value exceeds it. *)
Lemma max_step_spec (xs : list float) (acc : option float) (m : float) :
  (∀ a, acc = Some a → is_nan a = false) →
  foldl max_step acc xs = Some m →
  is_nan m = false
  ∧ (∀ a, acc = Some a → fle a m)
  ∧ Forall (fun x => is_nan x = false → fle x m) xs
  ∧ (acc = Some m ∨ m ∈ xs).
Proof.
  revert acc. induction xs as [|x xs IH]; intros acc Hacc; simpl.
  - intros ->. pose proof (Hacc m eq_refl) as Hm.
    split; [done|]. split; [|split; [constructor|by left]].
    intros a [= ->]. by apply fle_refl.
  - intros Hm. unfold max_step at 2 in Hm.
    destruct (is_nan x) eqn:Ex.
    + destruct (IH acc Hacc Hm) as (Hn & Ha & Hxs & Hin).
      split; [done|]. split; [done|]. split.
      * constructor; [congruence|done].
      * destruct Hin as [?|?]; [by left|right; by right].
    + apply IH in Hm as (Hn & Ha & Hxs & Hin).
      * destruct acc as [y|].
        -- pose proof (Hacc y eq_refl) as Hy.
           pose proof (ltb_fle x y Ex Hy) as Hxy.
           destruct (PrimFloat.ltb y x).
           ++ pose proof (Ha x eq_refl) as Hxm.
              split; [done|]. split; [|split].
              ** intros a [= <-]. by apply (fle_trans y x m).
              ** by constructor.
              ** right. destruct Hin as [[= ->]|?]; [by left|by right].
           ++ pose proof (Ha y eq_refl) as Hym.
              split; [done|]. split; [|split].
              ** by intros a [= <-].
              ** constructor; [|done]. intros _. by apply (fle_trans x y m).
              ** destruct Hin as [?|?]; [by left|right; by right].
        -- pose proof (Ha x eq_refl) as Hxm.
           split; [done|]. split; [done|]. split; [by constructor|].
           right. destruct Hin as [[= ->]|?]; [by left|by right].
      * intros a [= <-]. destruct acc as [y|]; [|done].
        destruct (PrimFloat.ltb y x); eauto.
Qed.

Lemma observed_max_spec (xs : list float) (m : float) :
  observed_max xs = Some m →
  is_nan m = false ∧ m ∈ xs ∧ Forall (fun x => is_nan x = false → fle x m) xs.
Proof.
  intros H. apply max_step_spec in H as (Hn & _ & Hxs & [?|Hin]); done.
Qed.

Lemma observed_max_not_nan (xs : list float) (y : float) :
  observed_max xs = Some y → is_nan y = false.
Proof. intros H. by apply observed_max_spec in H as [? _]. Qed.

(** Nothing observed means every value is missing. *)
Lemma observed_max_None (xs : list float) :
  observed_max xs = None ↔ Forall (fun x => is_nan x = true) xs.
Proof.
  unfold observed_max.
  assert (G : ∀ m, foldl max_step m xs = None
                   ↔ m = None ∧ Forall (fun x => is_nan x = true) xs).
  { induction xs as [|x xs IH]; intros m; simpl.
    - split; [by intros ->|by intros [-> _]].
    - rewrite IH, Forall_cons. unfold max_step at 1.
      destruct (is_nan x); [tauto|].
      split; [by intros [? _]|by intros (_ & ? & _)]. }
  rewrite G. tauto.
Qed.

Lemma adp_fill_floats (xs : list float) :
  adp_fill_value (CFloat <$> xs)
  = Ok match observed_max xs with
       | Some m => CFloat (m + 100)
       | None => CInt 1099
       end.
Proof.
  unfold adp_fill_value, series_max.
  pose proof (series_max_floats xs None) as Hm.
  change (NFloat <$> None) with (@None num) in Hm. rewrite Hm.
  fold (observed_max xs).
  destruct (observed_max xs) as [m|] eqn:Em; simpl.
  - by rewrite (observed_max_not_nan _ _ Em).
  - reflexivity.
Qed.

Lemma float_column_is_float (xs : list float) :
  forallb is_float_cell (CFloat <$> xs) = true.
Proof. induction xs as [|x xs IH]; simpl; done. Qed.

Lemma fillna_floats (v : cell) (w : float) (xs : list float) :
  cast_like (CFloat <$> xs) v = CFloat w →
  fillna v (CFloat <$> xs)
  = CFloat <$> ((fun x => if is_nan x then w else x) <$> xs).
Proof.
  intros Hv. unfold fillna. rewrite Hv, <- !list_fmap_compose.
  apply list_fmap_ext. intros i x _. simpl. by destruct (is_nan x).
Qed.

Lemma fillna_none_missing (v : cell) (s : series) :
  Forall (fun c => isna c = false) s → fillna v s = s.
Proof.
  unfold fillna. generalize (cast_like s v). intros w.
  induction 1 as [|c s Hc Hs IH]; simpl; [done|].
  rewrite Hc. f_equal. apply IH.
Qed.

Lemma ensure_required_adp (df : DataFrame) (adp : series) :
  cols df !! "ADP" = Some adp →
  cols (ensure_required df) !! "ADP" = Some (fillna (CInt 999) adp).
Proof.
  intros Hadp. unfold ensure_required.
  change required_cols
    with (take 9 required_cols ++ [("ADP", CInt 999)])%list.
  rewrite foldl_snoc. unfold ensure_col at 1. cbn [fst snd].
  rewrite ensure_all_other by (by apply not_in_names).
  rewrite Hadp. apply column_set_eq.
Qed.

Lemma sel_sel (m1 m2 : list bool) :
  ∃ m, ∀ A (l : list A), sel m2 (sel m1 l) = sel m l.
Proof.
  revert m2. induction m1 as [|b m1 IH]; intros m2.
  - exists []. intros A l. simpl. by destruct m2.
  - destruct b.
    + destruct m2 as [|c m2].
      * exists []. intros A [|x l]; done.
      * destruct (IH m2) as [m Hm]. exists (c :: m).
        intros A [|x l]; simpl; [done|]. rewrite <- Hm. by destruct c.
    + destruct (IH m2) as [m Hm]. exists (false :: m).
      intros A [|x l]; simpl; [by destruct m2|]. apply Hm.
Qed.

(** With every ADP missing the value written is 1099, not 999. *)
Lemma all_missing_adp_is_1099 :
  process_data no_adp2 ≫= column "Name" = Ok [CStr "A"; CStr "B"]
  ∧ process_data no_adp2 ≫= column "ADP" = Ok [CFloat 1099; CFloat 1099].
Proof. split; vm_compute; reflexivity. Qed.

(** C8, as the code has it: on a float ADP column, every missing value is
    replaced by one value [v] that is not missing, the other values are
    kept, and the ADP ranks are the ranks of the column so filled (over the
    rows the cleaning keeps).  When some ADP is observed, [v] is the
    largest observed one (a value of the column that no observed value
    exceeds) plus 100; when every ADP is missing, [v] is 999 + 100 =
    1099. *)
Theorem missing_adp_filled (df out : DataFrame) (xs : list float) :
  cols df !! "ADP" = Some (CFloat <$> xs) →
  process_data df = Ok out →
  ∃ (v : float) (kept : list bool) (filled : series) (ranks : series),
    filled = CFloat <$> sel kept ((fun x => if is_nan x then v else x) <$> xs)
    ∧ cols out !! "ADP" = Some filled
    ∧ cols out !! "ADP_Rank" = Some ranks
    ∧ rank_min true filled ≫= astype_int = Ok ranks
    ∧ is_nan v = false
    ∧ match observed_max xs with
      | Some m =>
          v = (m + 100)%float ∧ m ∈ xs
          ∧ Forall (fun x => is_nan x = false → fle x m) xs
      | None => v = 1099%float ∧ Forall (fun x => is_nan x = true) xs
      end.
Proof.
  intros Hadp H.
  destruct (process_data_adp_rank _ _ H) as (adp & ranks & Ha & Hr & Hrk).
  apply process_data_rows in H as (df1 & m1 & m2 & E1 & Hraw).
  destruct (sel_sel m1 m2) as [kept Hkept].
  set (v := match observed_max xs with
            | Some m => (m + 100)%float
            | None => 1099%float
            end).
  assert (Hv : is_nan v = false).
  { unfold v. destruct (observed_max xs) as [m|] eqn:Em; [|reflexivity].
    apply float_add_100_not_nan. by eapply observed_max_not_nan. }
  assert (Hout : cols out !! "ADP"
                 = Some (CFloat <$> sel kept ((fun x => if is_nan x then v else x)
                                                <$> xs))).
  { assert (Hadp' : cols (ensure_id df) !! "ADP" = Some (CFloat <$> xs)).
    { unfold ensure_id. destruct (has_column "ID" df); [done|].
      by rewrite column_set_ne. }
    unfold fill_adp in E1. rewrite Hadp', adp_fill_floats in E1.
    simpl in E1. injection E1 as <-.
    rewrite Hraw by (by apply not_in_names).
    rewrite (ensure_required_adp _ _ (column_set_eq _ _ _)). simpl.
    rewrite (fillna_floats _ v).
    - rewrite fillna_none_missing.
      + by rewrite Hkept, sel_fmap.
      + apply Forall_fmap, Forall_fmap, Forall_forall. intros x _. simpl.
        destruct (is_nan x) eqn:Ex; done.
    - unfold v. destruct (observed_max xs); [done|].
      simpl. by rewrite float_column_is_float. }
  exists v, kept, adp, ranks. rewrite Ha in Hout. injection Hout as Hout.
  repeat (split; [done|]).
  unfold v. destruct (observed_max xs) as [m|] eqn:Em.
  - apply observed_max_spec in Em as (_ & Hin & Hle). done.
  - split; [done|]. by apply observed_max_None.
Qed.

Lemma missing_adp_filled_witness :
  process_data late3 ≫= column "ADP" = Ok [CFloat 5; CFloat 12.5; CFloat 112.5]
  ∧ process_data late3 ≫= column "ADP_Rank" = Ok [CInt 1; CInt 2; CInt 3]
  ∧ ∃ out (v : float) (kept : list bool) (filled : series) (ranks : series),
      process_data late3 = Ok out
      ∧ filled = CFloat <$> sel kept ((fun x => if is_nan x then v else x)
                                        <$> [5; 12.5; nan]%float)
      ∧ cols out !! "ADP" = Some filled
      ∧ cols out !! "ADP_Rank" = Some ranks
      ∧ rank_min true filled ≫= astype_int = Ok ranks
      ∧ is_nan v = false
      ∧ match observed_max [5; 12.5; nan]%float with
        | Some m =>
            v = (m + 100)%float ∧ m ∈ [5; 12.5; nan]%float
            ∧ Forall (fun x => is_nan x = false → fle x m) [5; 12.5; nan]%float
        | None =>
            v = 1099%float
            ∧ Forall (fun x => is_nan x = true) [5; 12.5; nan]%float
        end.
Proof.
  split; [vm_compute; reflexivity|].
  split; [vm_compute; reflexivity|].
  destruct (process_data late3) as [out|e] eqn:E; [|by vm_compute in E].
  destruct (missing_adp_filled late3 out [5; 12.5; nan]%float eq_refl E)
    as (v & kept & filled & ranks & H).
  exists out, v, kept, filled, ranks. split; [reflexivity|exact H].
Defined.

(** ** Equity *)














Lemma frame_well_formed (n : nat) (l : list (string * series)) :
  Forall (fun cs => length cs.2 = n) l → well_formed (frame n l).
Proof.
  intros Hl c s Hc. apply elem_of_list_to_map_2 in Hc.
  rewrite Forall_forall in Hl. apply (Hl (c, s) Hc).
Qed.




(** * Further properties *)

(** ** Shared facts *)

Ltac in_list :=
  repeat first [apply list_elem_of_here | apply list_elem_of_further].

Lemma column_Ok (c : string) (df : DataFrame) (s : series) :
  column c df = Ok s ↔ cols df !! c = Some s.
Proof.
  unfold column. destruct (cols df !! c); split; intros [= ->]; done.
Qed.

Lemma mapR_length {A B} (f : A → result B) (l : list A) (k : list B) :
  mapR f l = Ok k → length k = length l.
Proof. intros H%mapR_Forall2. symmetry. by eapply Forall2_length. Qed.

Lemma ensure_id_other (df : DataFrame) (c : string) :
  c ≠ "ID" → cols (ensure_id df) !! c = cols df !! c.
Proof.
  intros Hc. unfold ensure_id. destruct (has_column "ID" df); [done|].
  by apply column_set_ne.
Qed.

Lemma nrows_set_column (c : string) (s : series) (df : DataFrame) :
  nrows (set_column c s df) = nrows df.
Proof. reflexivity. Qed.

Lemma nrows_add_ranks (df out : DataFrame) :
  add_ranks df = Ok out → nrows out = nrows df.
Proof.
  unfold add_ranks. intros H. inv_bind H. subst out.
  by rewrite !nrows_set_column.
Qed.

Lemma nrows_add_zscores (df : DataFrame) : nrows (add_zscores df) = nrows df.
Proof.
  unfold add_zscores, try_except, set_scalar.
  match goal with |- context [match ?m with Ok _ => _ | Raise _ => _ end] =>
    destruct m as [d|] eqn:Ez
  end.
  - inv_bind Ez. subst d. by rewrite !nrows_set_column.
  - by rewrite !nrows_set_column.
Qed.

Lemma nrows_add_value_alert (df out : DataFrame) :
  add_value_alert df = Ok out → nrows out = nrows df.
Proof.
  unfold add_value_alert. intros H. inv_bind H. subst out.
  by rewrite nrows_set_column.
Qed.

Lemma nrows_ensure_all (l : list (string * cell)) (df : DataFrame) :
  nrows (foldl ensure_col df l) = nrows df.
Proof.
  revert df. induction l as [|cd l IH]; intros df; [done|]. cbn [foldl].
  rewrite IH. unfold ensure_col, set_scalar.
  destruct (cols df !! cd.1); apply nrows_set_column.
Qed.

Lemma nrows_fill_adp (df out : DataFrame) :
  fill_adp df = Ok out → nrows out = nrows df.
Proof.
  unfold fill_adp. destruct (cols df !! "ADP"); [|by intros [= <-]].
  intros H. inv_bind H. subst out. apply nrows_set_column.
Qed.

Lemma nrows_ensure_id (df : DataFrame) : nrows (ensure_id df) = nrows df.
Proof. unfold ensure_id. by destruct (has_column "ID" df). Qed.

Lemma Ok_inj {A} (a b : A) : Ok a = Ok b → a = b.
Proof. by intros [= ->]. Qed.

Lemma set_column_twice (c : string) (s1 s2 : series) (df : DataFrame) :
  set_column c s2 (set_column c s1 df) = set_column c s2 df.
Proof. unfold set_column. cbn [nrows cols]. by rewrite insert_insert_eq. Qed.

(** ** The draft state *)

Lemma undo_draft_available (X : Z) (s : session) :
  X ∉ drafted_players s → undo (draft X s) = s.
Proof.
  intros HX. unfold undo, draft; simpl. rewrite last_snoc, removelast_last.
  destruct s as [ds r]; simpl in *. f_equal.
  apply set_eq. intros x.
  rewrite elem_of_difference, elem_of_union, elem_of_singleton.
  split; [by intros [[->|?] ?]|].
  intros Hx. split; [by right|]. by intros ->.
Qed.

Lemma drafted_after_drafts (ids : list Z) (s : session) (x : Z) :
  x ∈ drafted_players (foldl (fun s i => draft i s) s ids)
  ↔ x ∈ drafted_players s ∨ x ∈ ids.
Proof.
  revert s. induction ids as [|i ids IH]; intros s; simpl.
  - rewrite elem_of_nil. tauto.
  - rewrite IH. simpl. rewrite elem_of_union, elem_of_singleton, elem_of_cons.
    tauto.
Qed.

(** X1: Undo is last in, first out: after drafting available players
    [ids], all different, as many undos give back the session from before
    the first of these picks. *)
Theorem undo_reverts_picks (ids : list Z) (s : session) :
  NoDup ids →
  Forall (fun i => i ∉ drafted_players s) ids →
  Nat.iter (length ids) undo (foldl (fun s i => draft i s) s ids) = s.
Proof.
  induction ids as [|x ids IH] using rev_ind; intros Hnd Hav; [done|].
  apply NoDup_app in Hnd as (Hnd & Hx & _).
  apply Forall_app in Hav as [Hav Hxs]. rewrite Forall_singleton in Hxs.
  rewrite foldl_snoc, length_app, Nat.add_comm.
  change (length [x] + length ids)%nat with (S (length ids)).
  rewrite Nat.iter_succ_r, undo_draft_available.
  - by apply IH.
  - rewrite drafted_after_drafts. intros [?|Hin]; [done|].
     apply (Hx x Hin). by apply list_elem_of_singleton.
Qed.

Lemma undo_reverts_picks_witness :
  Nat.iter 3 undo (draft 9 (draft 4 (draft 2 taken7))) = taken7.
Proof.
  apply (undo_reverts_picks [2; 4; 9] taken7).
  - repeat constructor; rewrite ?elem_of_cons, ?elem_of_nil; lia.
  - repeat constructor; simpl; rewrite elem_of_singleton; lia.
Defined.

(** X2: A player who is drafted but not on the roster (an opponent's pick, or
    a press on "Mark as Drafted") stays so through every draft, mark and
    undo: only a reset frees that player. *)
Theorem marked_stays_drafted (evs : list event) (s : session) (id : Z) :
  consistent s →
  id ∈ drafted_players s →
  id ∉ my_roster s →
  Forall (fun ev => ev ≠ ResetDraft ∧ ev ≠ UploadNewData) evs →
  id ∈ drafted_players (run evs s) ∧ id ∉ my_roster (run evs s).
Proof.
  revert s. induction evs as [|ev evs IH]; intros s Hs Hd Hr Hev; [done|].
  apply Forall_cons in Hev as [[Hev1 Hev2] Hevs]. simpl.
  apply IH; [by apply consistent_step| | |done]; clear IH Hevs.
  - destruct ev as [| | |d sel|d sel]; simpl; try done.
    + unfold undo. destruct (last (my_roster s)) as [x|] eqn:El; [|done].
      simpl. apply elem_of_difference. split; [done|].
      intros Hx. apply elem_of_singleton in Hx as <-.
      apply Hr. by eapply last_Some_elem_of.
    + destruct (player_options d s !! sel); simpl; [|done].
      by apply elem_of_union_r.
    + destruct (player_options d s !! sel); simpl; [|done].
      by apply elem_of_union_r.
  - destruct ev as [| | |d sel|d sel]; simpl; try done.
    + unfold undo. destruct (last (my_roster s)) as [x|] eqn:El; [|done].
      simpl. apply last_Some in El as [l El]. rewrite El in *.
      rewrite removelast_last. intros Hin. apply Hr, elem_of_app. by left.
    + destruct (player_options d s !! sel) as [id'|] eqn:E; simpl; [|done].
      apply player_options_available in E.
      intros Hin. apply elem_of_app in Hin as [?|Hin]; [done|].
      apply list_elem_of_singleton in Hin as ->. done.
    + destruct (player_options d s !! sel); simpl; done.
Qed.

Lemma marked_stays_drafted_witness :
  7 ∈ drafted_players
        (run [DraftToMyTeam [("C (F, BOS)", 3)] "C (F, BOS)"; UndoLastPick;
              UndoLastPick; MarkAsDrafted [("C (F, BOS)", 3)] "C (F, BOS)"]
           taken7)
  ∧ 7 ∉ my_roster
        (run [DraftToMyTeam [("C (F, BOS)", 3)] "C (F, BOS)"; UndoLastPick;
              UndoLastPick; MarkAsDrafted [("C (F, BOS)", 3)] "C (F, BOS)"]
           taken7).
Proof.
  apply (marked_stays_drafted _ taken7 7).
  - split; [constructor|]. simpl. intros x Hx. by apply elem_of_nil in Hx.
  - change (7 ∈ ({[7]} : gset Z)). by apply elem_of_singleton_2.
  - simpl. apply not_elem_of_nil.
  - repeat constructor; discriminate.
Defined.

Lemma NoDup_within_size (l : list Z) (X : gset Z) :
  NoDup l → (∀ x, x ∈ l → x ∈ X) → (length l ≤ size X)%nat.
Proof.
  intros Hnd Hsub.
  rewrite <- (size_list_to_set (C := gset Z) l Hnd).
  apply subseteq_size. intros x Hx. apply elem_of_list_to_set in Hx. auto.
Qed.

(** X3: The "Players Drafted" count of the sidebar never exceeds the number of
    drafted players, and an undo is possible exactly when it is not 0. *)
Theorem roster_count_bounded (evs : list event) :
  (length (my_roster (run evs init_session_state))
   ≤ size (drafted_players (run evs init_session_state)))%nat
  ∧ (undo (run evs init_session_state) = run evs init_session_state
     ↔ length (my_roster (run evs init_session_state)) = 0%nat).
Proof.
  set (s := run evs init_session_state). destruct (consistent_run evs _ consistent_init) as [Hnd Hsub].
  fold s in Hnd, Hsub. split; [by apply NoDup_within_size|].
  unfold undo. destruct (my_roster s) as [|x l] eqn:El using rev_ind.
  - done.
  - rewrite last_snoc, length_app. simpl. split; [|lia].
    intros H. apply (f_equal my_roster) in H. simpl in H.
    rewrite El, removelast_last in H.
    apply (f_equal length) in H. rewrite length_app in H. simpl in H. lia.
Qed.

(** ** The rows [process_data] returns *)

Lemma Forall_sel {A} (P : A → Prop) (m : list bool) (l : list A) :
  Forall P l → Forall P (sel m l).
Proof.
  intros Hl. apply Forall_forall. intros x Hx.
  rewrite Forall_forall in Hl. apply Hl.
  by apply (sublist_subseteq _ _ (sel_sublist m l)).
Qed.

Lemma sel_mask_and_l {A} (P : A → Prop) (a b : list bool) (l : list A) :
  Forall P (sel a l) → Forall P (sel (mask_and a b) l).
Proof.
  revert b l. induction a as [|x a IH]; intros [|y b] [|z l]; simpl;
    try (intros; by constructor).
  destruct x; simpl.
  - intros [Hz Hl]%Forall_cons. destruct y; [apply Forall_cons|]; auto.
  - apply IH.
Qed.

Lemma sel_mask_and_r {A} (P : A → Prop) (a b : list bool) (l : list A) :
  Forall P (sel b l) → Forall P (sel (mask_and a b) l).
Proof.
  revert b l. induction a as [|x a IH]; intros [|y b] [|z l]; simpl;
    try (intros; by constructor).
  destruct y; simpl.
  - intros [Hz Hl]%Forall_cons. destruct x; simpl; [apply Forall_cons|]; auto.
  - rewrite andb_false_r. apply IH.
Qed.

Lemma sel_notna (s : series) :
  Forall (fun x => isna x = false) (sel ((fun x => negb (isna x)) <$> s) s).
Proof.
  induction s as [|x s IH]; simpl; [done|].
  destruct (isna x) eqn:Ex; simpl; [done|]. by apply Forall_cons.
Qed.

Lemma notna_mask_spec (cs : list string) (df : DataFrame) (m : list bool)
  (c : string) :
  notna_mask cs df = Ok m → c ∈ cs →
  ∃ s, cols df !! c = Some s ∧ Forall (fun x => isna x = false) (sel m s).
Proof.
  revert m. induction cs as [|c' cs IH]; intros m H Hc.
  - by apply elem_of_nil in Hc.
  - cbn [notna_mask] in H. inv_bind H. subst m.
    apply elem_of_cons in Hc as [->|Hc].
    + unfold column in E. destruct (cols df !! c') as [s|]; [|done].
      injection E as <-. exists s. split; [done|].
      apply sel_mask_and_l, sel_notna.
    + destruct (IH _ E0 Hc) as (s & Hs & Hna). exists s. split; [done|].
      by apply sel_mask_and_r.
Qed.

Lemma mapR_sel_true {A} (f : A → result bool) (l : list A) (m : list bool) :
  mapR f l = Ok m → Forall (fun x => f x = Ok true) (sel m l).
Proof.
  intros H%mapR_Forall2.
  induction H as [|x b l m Hx _ IH]; simpl; [done|].
  destruct b; [by apply Forall_cons|done].
Qed.



Lemma dropna_mask (cs : list string) (df out : DataFrame) :
  dropna cs df = Ok out →
  ∃ m, notna_mask cs df = Ok m ∧ out = select_rows m df.
Proof.
  unfold dropna. intros H. inv_bind H. eauto.
Qed.

Lemma keep_positive_mask (df out : DataFrame) :
  keep_positive df = Ok out →
  ∃ gpp m, cols df !! "FinalAdjGPP" = Some gpp
           ∧ mapR (fun x => py_gt x (CInt 0)) gpp = Ok m
           ∧ out = select_rows m df.
Proof.
  unfold keep_positive. intros H. inv_bind H.
  apply column_Ok in E. eauto.
Qed.

(** The two row filters of [process_data], with the masks they apply. *)
Lemma process_data_filters (df out : DataFrame) :
  process_data df = Ok out →
  ∃ df1 m1 m2 gpp,
    fill_adp (ensure_id df) = Ok df1
    ∧ notna_mask critical_cols (ensure_required df1) = Ok m1
    ∧ cols (ensure_required df1) !! "FinalAdjGPP" = Some gpp
    ∧ mapR (fun x => py_gt x (CInt 0)) (sel m1 gpp) = Ok m2
    ∧ ∀ c, c ∉ derived_cols →
        cols out !! c = sel m2 <$> (sel m1 <$> cols (ensure_required df1) !! c).
Proof.
  unfold process_data. intros H.
  apply bind_Ok in H as (df1 & E1 & H).
  apply bind_Ok in H as (df2 & E2 & H).
  apply bind_Ok in H as (df3 & E3 & H).
  apply bind_Ok in H as (df4 & E4 & H).
  apply dropna_mask in E2 as (m1 & Em1 & ->).
  apply keep_positive_mask in E3 as (g & m2 & Eg & Em2 & ->).
  rewrite select_rows_column in Eg.
  apply fmap_Some in Eg as (gpp & Egpp & ->).
  exists df1, m1, m2, gpp.
  split; [exact E1|]. split; [exact Em1|]. split; [exact Egpp|].
  split; [exact Em2|].
  intros c Hc.
  pose proof (derived_cols_ne c Hc) as (_ & _ & _ & ? & ? & ? & ?).
  rewrite (add_value_alert_other _ _ _ H), add_zscores_other,
    (add_ranks_other _ _ _ E4 Hc) by done.
  by rewrite !select_rows_column.
Qed.

(** X4: Every row that [process_data] returns has a name, a position and a
    team, and a projection that is present and above 0. *)
Theorem process_data_rows_valid (df out : DataFrame) :
  process_data df = Ok out →
  (∃ gpp, cols out !! "FinalAdjGPP" = Some gpp
          ∧ Forall (fun x => isna x = false ∧ py_gt x (CInt 0) = Ok true) gpp)
  ∧ Forall (fun c => ∃ s, cols out !! c = Some s
                          ∧ Forall (fun x => isna x = false) s)
      ["Name"; "Position"; "Team"].
Proof.
  intros H.
  apply process_data_filters in H as (df1 & m1 & m2 & gpp & _ & Em1 & Eg & Em2 & Hraw).
  assert (Hcrit : ∀ c, c ∈ critical_cols →
    ∃ s, cols out !! c = Some s ∧ Forall (fun x => isna x = false) s).
  { intros c Hc.
    destruct (notna_mask_spec _ _ _ c Em1 Hc) as (s & Hs & Hna).
    exists (sel m2 (sel m1 s)). split; [|by apply Forall_sel].
    rewrite Hraw, Hs; [done|].
    apply not_in_names.
    unfold critical_cols in Hc.
    repeat (apply elem_of_cons in Hc as [->|Hc]; [reflexivity|]).
    by apply elem_of_nil in Hc. }
  split.
  - exists (sel m2 (sel m1 gpp)). split.
    + rewrite Hraw, Eg; [done|]. by apply not_in_names.
    + destruct (Hcrit "FinalAdjGPP") as (s & Hs & Hna).
      { unfold critical_cols. in_list. }
      rewrite Hraw, Eg in Hs by (by apply not_in_names).
      injection Hs as <-.
      apply Forall_and. split; [done|]. by apply mapR_sel_true.
  - repeat (apply Forall_cons; split;
            [apply Hcrit; unfold critical_cols; in_list|]).
    apply Forall_nil_2.
Qed.

Lemma process_data_rows_valid_witness :
  ∃ out,
    process_data gapped3 = Ok out
    ∧ (∃ gpp, cols out !! "FinalAdjGPP" = Some gpp
              ∧ Forall (fun x => isna x = false ∧ py_gt x (CInt 0) = Ok true)
                  gpp)
    ∧ Forall (fun c => ∃ s, cols out !! c = Some s
                            ∧ Forall (fun x => isna x = false) s)
        ["Name"; "Position"; "Team"].
Proof.
  destruct (process_data gapped3) as [out|e] eqn:E; [|by vm_compute in E].
  exists out. split; [reflexivity|].
  exact (process_data_rows_valid gapped3 out E).
Defined.


Lemma notna_mask_missing (cs : list string) (df : DataFrame) (c : string) :
  c ∈ cs → cols df !! c = None → notna_mask cs df = Raise KeyError.
Proof.
  intros Hc Hnone. induction cs as [|c' cs IH]; [by apply elem_of_nil in Hc|].
  cbn [notna_mask]. unfold column at 1.
  destruct (decide (c = c')) as [<-|Hne].
  - by rewrite Hnone.
  - apply elem_of_cons in Hc as [?|Hc]; [done|]. rewrite (IH Hc).
    by destruct (cols df !! c').
Qed.

(** X5: A file with no Name, no Position or no Team column is refused:
    [process_data] raises [KeyError] at the removal of incomplete rows
    (unless the filling of the ADP column has raised before). *)
Theorem process_data_needs_identity (df : DataFrame) (c : string) :
  c ∈ ["Name"; "Position"; "Team"] →
  cols df !! c = None →
  match fill_adp (ensure_id df) with
  | Ok _ => process_data df = Raise KeyError
  | Raise e => process_data df = Raise e
  end.
Proof.
  intros Hc Hnone. unfold process_data.
  destruct (fill_adp (ensure_id df)) as [df1|e] eqn:E1; [|done].
  rewrite bind_Ok_l. unfold dropna.
  rewrite (notna_mask_missing _ _ c); [done| |].
  - unfold critical_cols.
    repeat (apply elem_of_cons in Hc as [->|Hc]; [in_list|]).
    by apply elem_of_nil in Hc.
  - unfold ensure_required. rewrite ensure_all_other.
    + rewrite (fill_adp_other _ _ c E1), ensure_id_other; [done|..];
        intros ->; repeat (apply elem_of_cons in Hc as [[=]|Hc]);
        by apply elem_of_nil in Hc.
    + apply not_in_names.
      repeat (apply elem_of_cons in Hc as [->|Hc]; [reflexivity|]).
      by apply elem_of_nil in Hc.
Qed.

Lemma process_data_needs_identity_witness :
  process_data
    (frame 1 [("Name", [CStr "A"]); ("Position", [CStr "G"]);
              ("FinalAdjGPP", [CFloat 10])])
  = Raise KeyError.
Proof.
  apply (process_data_needs_identity
           (frame 1 [("Name", [CStr "A"]); ("Position", [CStr "G"]);
                     ("FinalAdjGPP", [CFloat 10])]) "Team").
  - in_list.
  - reflexivity.
Defined.

Lemma fillna_filled (v : cell) (s : series) :
  isna (cast_like s v) = false →
  Forall (fun c => isna c = false) (fillna v s).
Proof.
  unfold fillna. generalize (cast_like s v). intros w Hw.
  apply Forall_fmap, Forall_forall. intros x _.
  unfold compose. by destruct (isna x) eqn:Ex.
Qed.

(** No default of [required_cols] is a missing value, also when it is
    stored in a float column. *)
Lemma required_defaults_present :
  Forall (fun cd : string * cell =>
            isna cd.2 = false ∧ ∀ s, isna (cast_like s cd.2) = false)
    required_cols.
Proof.
  unfold required_cols.
  repeat (apply Forall_cons; split;
          [split; [reflexivity|intros s; unfold cast_like; cbn [snd];
                   try destruct (forallb is_float_cell s);
                   vm_compute; reflexivity]|]).
  apply Forall_nil_2.
Qed.

Lemma ensure_col_filled (df : DataFrame) (cd : string * cell) :
  isna cd.2 = false → (∀ s, isna (cast_like s cd.2) = false) →
  ∃ s, cols (ensure_col df cd) !! cd.1 = Some s
       ∧ Forall (fun x => isna x = false) s.
Proof.
  intros Hd Hc. unfold ensure_col, set_scalar.
  destruct (cols df !! cd.1) as [s|].
  - exists (fillna cd.2 s). split; [apply column_set_eq|].
    apply fillna_filled, Hc.
  - exists (replicate (nrows df) cd.2). split; [apply column_set_eq|].
    apply Forall_replicate. exact Hd.
Qed.

Lemma ensure_all_filled (l : list (string * cell)) (df : DataFrame)
  (c : string) :
  NoDup l.*1 →
  Forall (fun cd : string * cell =>
            isna cd.2 = false ∧ ∀ s, isna (cast_like s cd.2) = false) l →
  c ∈ l.*1 →
  ∃ s, cols (foldl ensure_col df l) !! c = Some s
       ∧ Forall (fun x => isna x = false) s.
Proof.
  revert df. induction l as [|cd l IH]; intros df Hnd Hl Hc.
  - by apply elem_of_nil in Hc.
  - rewrite fmap_cons in Hnd, Hc. apply NoDup_cons in Hnd as [Hcd Hnd].
    apply Forall_cons in Hl as [[Hd Hcast] Hl]. cbn [foldl].
    destruct (decide (c = cd.1)) as [->|Hne].
    + rewrite ensure_all_other by done. by apply ensure_col_filled.
    + apply elem_of_cons in Hc as [?|Hc]; [done|]. by apply IH.
Qed.

Lemma required_names_NoDup : NoDup required_cols.*1.
Proof.
  unfold required_cols. cbn [fmap list_fmap fst].
  repeat (apply NoDup_cons; split; [by apply not_in_names|]).
  apply NoDup_nil_2.
Qed.

(** X6: In the table [process_data] returns, each of the ten columns of
    [required_cols] is present and has a value in every row. *)
Theorem process_data_required_filled (df out : DataFrame) (c : string) :
  process_data df = Ok out →
  c ∈ required_cols.*1 →
  ∃ s, cols out !! c = Some s ∧ Forall (fun x => isna x = false) s.
Proof.
  intros H Hc.
  apply process_data_filters in H as (df1 & m1 & m2 & _ & _ & _ & _ & _ & Hraw).
  destruct (ensure_all_filled required_cols df1 c required_names_NoDup
              required_defaults_present Hc) as (s & Hs & Hna).
  exists (sel m2 (sel m1 s)). split; [|by do 2 apply Forall_sel].
  fold (ensure_required df1) in Hs. rewrite Hraw, Hs; [done|].
  apply not_in_names. unfold required_cols in Hc. cbn [fmap list_fmap fst] in Hc.
  repeat (apply elem_of_cons in Hc as [->|Hc]; [reflexivity|]).
  by apply elem_of_nil in Hc.
Qed.

Lemma process_data_required_filled_witness :
  ∃ out s,
    process_data late3 = Ok out
    ∧ cols out !! "ADP" = Some s ∧ Forall (fun x => isna x = false) s.
Proof.
  destruct (process_data late3) as [out|e] eqn:E; [|by vm_compute in E].
  destruct (process_data_required_filled late3 out "ADP" E) as (s & H).
  { unfold required_cols. cbn [fmap list_fmap fst]. in_list. }
  exists out, s. split; [reflexivity|exact H].
Defined.


(** ** The shape of the result *)


Lemma zipR_length {A B C} (f : A → B → result C) (l : list A) (k : list B)
  (r : list C) :
  length l = length k → zipR f l k = Ok r → length r = length l.
Proof.
  revert k r. induction l as [|x l IH]; intros [|y k] r Hlen; try done.
  - by intros [= <-].
  - cbn [zipR]. intros H.
    apply bind_Ok in H as (z & Ez & H). apply bind_Ok in H as (zs & Ezs & H).
    injection H as <-.
    injection Hlen as Hlen. cbn [length]. f_equal. by eapply IH.
Qed.

Lemma sel_length_eq {A B} (m : list bool) (l : list A) (k : list B) :
  length l = length k → length (sel m l) = length (sel m k).
Proof.
  revert l k. induction m as [|b m IH]; intros [|x l] [|y k] Hlen; try done.
  injection Hlen as Hlen. cbn [sel]. destruct b; cbn [length]; auto.
Qed.

Lemma wf_set_column (c : string) (s : series) (df : DataFrame) :
  well_formed df → length s = nrows df → well_formed (set_column c s df).
Proof.
  intros Hwf Hs c' s'. destruct (decide (c = c')) as [<-|Hne].
  - rewrite column_set_eq. by intros [= <-].
  - rewrite column_set_ne by done. apply Hwf.
Qed.

Lemma wf_set_scalar (c : string) (v : cell) (df : DataFrame) :
  well_formed df → well_formed (set_scalar c v df).
Proof. intros Hwf. apply wf_set_column; [done|apply length_replicate]. Qed.

Lemma wf_select_rows (m : list bool) (df : DataFrame) :
  well_formed df → well_formed (select_rows m df).
Proof.
  intros Hwf c s. rewrite select_rows_column.
  intros (s0 & Hs0 & ->)%fmap_Some. cbn [nrows select_rows].
  apply sel_length_eq. rewrite length_seq. by eapply Hwf.
Qed.

Lemma wf_ensure_id (df : DataFrame) : well_formed df → well_formed (ensure_id df).
Proof.
  intros Hwf. unfold ensure_id. destruct (has_column "ID" df); [done|].
  apply wf_set_column; [done|]. by rewrite !length_fmap, length_seq.
Qed.

Lemma length_fillna (v : cell) (s : series) : length (fillna v s) = length s.
Proof. apply length_fmap. Qed.

Lemma wf_fill_adp (df out : DataFrame) :
  well_formed df → fill_adp df = Ok out → well_formed out.
Proof.
  intros Hwf. unfold fill_adp.
  destruct (cols df !! "ADP") as [adp|] eqn:Ea; [|by intros [= <-]].
  intros H. inv_bind H. subst out. apply wf_set_column; [done|].
  rewrite length_fillna. by eapply Hwf.
Qed.

Lemma wf_ensure_col (df : DataFrame) (cd : string * cell) :
  well_formed df → well_formed (ensure_col df cd).
Proof.
  intros Hwf. unfold ensure_col.
  destruct (cols df !! cd.1) as [s|] eqn:Es.
  - apply wf_set_column; [done|]. rewrite length_fillna. by eapply Hwf.
  - by apply wf_set_scalar.
Qed.

Lemma wf_ensure_all (l : list (string * cell)) (df : DataFrame) :
  well_formed df → well_formed (foldl ensure_col df l).
Proof.
  revert df. induction l as [|cd l IH]; intros df Hwf; [done|].
  cbn [foldl]. by apply IH, wf_ensure_col.
Qed.

Lemma wf_add_ranks (df out : DataFrame) :
  well_formed df → add_ranks df = Ok out → well_formed out.
Proof.
  intros Hwf H. unfold add_ranks in H.
  apply bind_Ok in H as (gpp & Eg & H).
  apply bind_Ok in H as (fr0 & Ef & H).
  apply bind_Ok in H as (fr & Ef' & H).
  apply bind_Ok in H as (adp & Ea & H).
  apply bind_Ok in H as (ar0 & Er & H).
  apply bind_Ok in H as (ar & Er' & H).
  apply bind_Ok in H as (vs & Ev & H).
  injection H as <-.
  apply column_Ok in Eg, Ea. rewrite column_set_ne in Ea by done.
  apply mapR_length in Ef, Ef', Er, Er'.
  assert (length fr = nrows df) as Lf
    by (rewrite Ef', Ef; by eapply Hwf).
  assert (length ar = nrows df) as La
    by (rewrite Er', Er; by eapply Hwf).
  apply zipR_length in Ev; [|congruence].
  repeat apply wf_set_column; try done; cbn [nrows set_column]; congruence.
Qed.

Lemma zscore_length (s : series) (z : list float) :
  zscore s = Ok z → length z = length s.
Proof.
  unfold zscore. intros H. apply bind_Ok in H as (nums & Ea & H).
  apply mapR_length in Ea.
  destruct (negb (numeric_dtype s)); [done|].
  destruct (isconst nums); apply Ok_inj in H as <-.
  - by rewrite length_replicate, length_fmap.
  - by rewrite !length_fmap.
Qed.

Lemma wf_add_zscores (df : DataFrame) :
  well_formed df → well_formed (add_zscores df).
Proof.
  intros Hwf. unfold add_zscores, try_except.
  match goal with |- context [match ?m with Ok _ => _ | Raise _ => _ end] =>
    destruct m as [d|] eqn:Ez
  end.
  - apply bind_Ok in Ez as (gpp & Eg & Ez).
    apply bind_Ok in Ez as (zf & Ezf & Ez).
    apply bind_Ok in Ez as (adp & Ea & Ez).
    apply bind_Ok in Ez as (nadp & En & Ez).
    apply bind_Ok in Ez as (za & Eza & Ez).
    injection Ez as <-.
    apply column_Ok in Eg, Ea. apply zscore_length in Ezf, Eza.
    apply mapR_length in En.
    assert (length zf = nrows df) as Lf by (rewrite Ezf; by eapply Hwf).
    assert (length za = nrows df) as La
      by (rewrite Eza, En; by eapply Hwf).
    apply wf_set_column; [apply wf_set_column; [apply wf_set_column|]|];
      try done; rewrite length_fmap; cbn [nrows set_column];
      rewrite ?length_zip_with; lia.
  - by repeat apply wf_set_scalar.
Qed.

Lemma wf_add_value_alert (df out : DataFrame) :
  well_formed df → add_value_alert df = Ok out → well_formed out.
Proof.
  intros Hwf H. unfold add_value_alert in H.
  apply bind_Ok in H as (vs & Ev & H).
  apply bind_Ok in H as (a & Ea & H).
  apply bind_Ok in H as (vz & Ez & H).
  apply bind_Ok in H as (b & Eb & H).
  injection H as <-.
  apply column_Ok in Ev, Ez. apply mapR_length in Ea, Eb.
  apply wf_set_column; [done|].
  rewrite length_fmap, length_zip_with, Ea, Eb,
    (Hwf _ _ Ev), (Hwf _ _ Ez). lia.
Qed.

(** The table before the two rank columns are added: its rows are a
    selection of the rows after the defaults are filled. *)
Lemma process_data_stages (df out : DataFrame) :
  process_data df = Ok out →
  ∃ df1 m1 m2 df4,
    fill_adp (ensure_id df) = Ok df1
    ∧ add_ranks (select_rows m2 (select_rows m1 (ensure_required df1)))
      = Ok df4
    ∧ add_value_alert (add_zscores df4) = Ok out.
Proof.
  unfold process_data. intros H.
  apply bind_Ok in H as (df1 & E1 & H).
  apply bind_Ok in H as (df2 & E2 & H).
  apply bind_Ok in H as (df3 & E3 & H).
  apply bind_Ok in H as (df4 & E4 & H).
  apply dropna_mask in E2 as (m1 & _ & ->).
  apply keep_positive_mask in E3 as (g & m2 & _ & _ & ->).
  by exists df1, m1, m2, df4.
Qed.

Lemma wf_before_ranks (df df1 : DataFrame) (m1 m2 : list bool) :
  well_formed df → fill_adp (ensure_id df) = Ok df1 →
  well_formed (select_rows m2 (select_rows m1 (ensure_required df1))).
Proof.
  intros Hwf E1. do 2 apply wf_select_rows. apply wf_ensure_all.
  eapply wf_fill_adp; [|exact E1]. by apply wf_ensure_id.
Qed.

Lemma nrows_select (m : list bool) (df : DataFrame) :
  (nrows (select_rows m df) ≤ nrows df)%nat.
Proof.
  cbn [nrows select_rows].
  etrans; [apply sublist_length, sel_sublist|]. by rewrite length_seq.
Qed.








(** X7: [process_data] returns a proper table: every column, computed or
    carried over, has one entry for each of its rows, and it has no more
    rows than the table it was given. *)
Theorem process_data_shape (df out : DataFrame) :
  well_formed df →
  process_data df = Ok out →
  well_formed out ∧ (nrows out ≤ nrows df)%nat.
Proof.
  intros Hwf H.
  apply process_data_stages in H as (df1 & m1 & m2 & df4 & E1 & E4 & H).
  pose proof (wf_before_ranks df df1 m1 m2 Hwf E1) as Hwf3.
  split.
  - eapply wf_add_value_alert; [|exact H]. apply wf_add_zscores.
    eapply wf_add_ranks; [|exact E4]. exact Hwf3.
  - rewrite (nrows_add_value_alert _ _ H), nrows_add_zscores,
      (nrows_add_ranks _ _ E4).
    etrans; [apply nrows_select|]. etrans; [apply nrows_select|].
    unfold ensure_required.
    by rewrite nrows_ensure_all, (nrows_fill_adp _ _ E1), nrows_ensure_id.
Qed.

Lemma process_data_shape_witness :
  ∃ out, process_data gapped3 = Ok out
         ∧ well_formed out ∧ (nrows out ≤ 3)%nat.
Proof.
  destruct (process_data gapped3) as [out|e] eqn:E; [|by vm_compute in E].
  exists out. split; [reflexivity|].
  apply (process_data_shape gapped3 out); [|exact E].
  apply frame_well_formed. vm_compute. by repeat constructor.
Defined.

(** ** The range of the ranks *)

Lemma float_ltb_irrefl (x : float) : PrimFloat.ltb x x = false.
Proof.
  destruct (is_nan x) eqn:Ex.
  - apply is_nan_spec in Ex. by rewrite ltb_spec, Ex.
  - apply not_true_iff_false. intros H. apply ltb_key in H; [|done..].
    unfold key_lt in H. lia.
Qed.

Lemma py_lt_irrefl (x : cell) (b : bool) : py_lt x x = Ok b → b = false.
Proof.
  destruct x as [z|f|s|c]; cbn; intros [= <-].
  - apply Z.ltb_irrefl.
  - apply float_ltb_irrefl.
  - unfold str_ltb. pose proof (String.compare_antisym s s) as H.
    by destruct (String.compare s s).
  - apply Z.ltb_irrefl.
Qed.

Lemma ahead_irrefl (asc : bool) (x : cell) (b : bool) :
  ahead asc x x = Ok b → b = false.
Proof.
  unfold ahead, py_gt. destruct (isna x); [by intros [= <-]|].
  destruct asc; apply py_lt_irrefl.
Qed.

Lemma count_true_bounds (bs : list bool) :
  0 ≤ count_true bs ≤ Z.of_nat (length bs).
Proof.
  induction bs as [|b bs IH]; cbn [count_true length]; [lia|].
  destruct b; cbn [Z.b2z]; lia.
Qed.

Lemma count_true_below (f : cell → result bool) (s : series) (bs : list bool)
  (x : cell) :
  mapR f s = Ok bs → x ∈ s → (∀ b, f x = Ok b → b = false) →
  count_true bs < Z.of_nat (length s).
Proof.
  intros H%mapR_Forall2 Hx Hf.
  induction H as [|y b s bs Hy Hs IH]; [by apply elem_of_nil in Hx|].
  cbn [count_true length].
  apply elem_of_cons in Hx as [<-|Hx].
  - rewrite (Hf b Hy). cbn [Z.b2z].
    pose proof (count_true_bounds bs) as Hb.
    rewrite <- (Forall2_length _ _ _ Hs) in Hb. lia.
  - specialize (IH Hx). destruct b; cbn [Z.b2z]; lia.
Qed.

Lemma Forall2_Forall_elem {A B} (P : A → B → Prop) (Q : B → Prop)
  (l : list A) (k : list B) :
  Forall2 P l k → (∀ x y, x ∈ l → P x y → Q y) → Forall Q k.
Proof.
  induction 1 as [|x y l k Hxy _ IH]; intros HQ; [done|].
  apply Forall_cons. split.
  - apply (HQ x); [apply list_elem_of_here|done].
  - apply IH. intros x' y' Hx'. apply HQ. by apply list_elem_of_further.
Qed.

(** A rank is a whole number from 1 to the number of rows ranked. *)
Lemma rank_min_range (asc : bool) (s ranks : series) :
  rank_min asc s ≫= astype_int = Ok ranks →
  length ranks = length s
  ∧ Forall (fun c => ∃ z, c = CInt z ∧ 1 ≤ z ≤ Z.of_nat (length s)) ranks.
Proof.
  intros H. apply bind_Ok in H as (r & Er & Ea).
  unfold rank_min in Er. apply mapR_Forall2 in Er.
  unfold astype_int in Ea. apply mapR_Forall2 in Ea.
  split.
  - by rewrite <- (Forall2_length _ _ _ Ea), <- (Forall2_length _ _ _ Er).
  - eapply Forall2_Forall_elem; [exact Ea|]. intros o c Ho Hc. cbv beta in Hc.
    destruct o as [z|]; [|done]. injection Hc as <-.
    exists z. split; [done|].
    apply list_elem_of_lookup in Ho as [i Hi].
    destruct (Forall2_lookup_r _ _ _ _ _ Er Hi) as (x & Hx & Hz).
    cbv beta in Hz. destruct (isna x); [done|].
    apply bind_Ok in Hz as (bs & Ebs & Hz). injection Hz as <-.
    pose proof (count_true_bounds bs).
    pose proof (count_true_below _ _ _ x Ebs (list_elem_of_lookup_2 _ _ _ Hx)
                  (ahead_irrefl asc x)).
    lia.
Qed.

(** A wrapped integer is no further from 0 than the integer. *)
Lemma wrap64_within (z b : Z) : - b ≤ z ≤ b → - b ≤ wrap64 z ≤ b.
Proof.
  intros H. unfold wrap64.
  pose proof (Z.mod_pos_bound (z + 2 ^ 63) (2 ^ 64) ltac:(lia)) as Hm.
  destruct (decide (- 2 ^ 63 ≤ z < 2 ^ 63)) as [Hz|Hz].
  - rewrite Z.mod_small by lia. lia.
  - lia.
Qed.

Lemma zipR_Forall2 {A B C} (f : A → B → result C) (l : list A) (k : list B)
  (r : list C) :
  length l = length k → zipR f l k = Ok r →
  length r = length l
  ∧ ∀ i x y z, l !! i = Some x → k !! i = Some y → r !! i = Some z →
               f x y = Ok z.
Proof.
  revert k r. induction l as [|x l IH]; intros [|y k] r Hlen; try done.
  - intros [= <-]. split; [done|]. intros i ? ? z ? ? Hz. done.
  - cbn [zipR]. intros H.
    apply bind_Ok in H as (z & Ez & H). apply bind_Ok in H as (zs & Ezs & H).
    injection H as <-.
    injection Hlen as Hlen. destruct (IH _ _ Hlen Ezs) as [Hl Hi].
    split; [cbn; by rewrite Hl|].
    intros [|i] x' y' z'; cbn; [by intros [= <-] [= <-] [= <-]|apply Hi].
Qed.

Lemma add_ranks_columns (df out : DataFrame) :
  add_ranks df = Ok out →
  ∃ gpp adp fr ar vs,
    cols df !! "FinalAdjGPP" = Some gpp
    ∧ cols df !! "ADP" = Some adp
    ∧ rank_min false gpp ≫= astype_int = Ok fr
    ∧ rank_min true adp ≫= astype_int = Ok ar
    ∧ zipR py_sub ar fr = Ok vs
    ∧ cols out !! "FinalAdjGPP_Rank" = Some fr
    ∧ cols out !! "ADP_Rank" = Some ar
    ∧ cols out !! "ValueScore" = Some vs.
Proof.
  unfold add_ranks. intros H.
  apply bind_Ok in H as (gpp & Eg & H).
  apply bind_Ok in H as (fr0 & Ef & H).
  apply bind_Ok in H as (fr & Ef' & H).
  apply bind_Ok in H as (adp & Ea & H).
  apply bind_Ok in H as (ar0 & Er & H).
  apply bind_Ok in H as (ar & Er' & H).
  apply bind_Ok in H as (vs & Ev & H).
  injection H as <-.
  apply column_Ok in Eg, Ea. rewrite column_set_ne in Ea by done.
  exists gpp, adp, fr, ar, vs.
  rewrite Ef, Er, !bind_Ok_l.
  repeat split; try done.
  - rewrite column_set_ne by done. rewrite column_set_ne by done.
    apply column_set_eq.
  - rewrite column_set_ne by done. apply column_set_eq.
  - apply column_set_eq.
Qed.

(** X8: Both rank columns hold whole numbers from 1 to the number of rows
    [n], one for each row, and so every value score lies between
    [-(n-1)] and [n-1]: with twelve players or fewer no value score can
    reach the alert threshold 12. *)
Theorem process_data_rank_range (df out : DataFrame) :
  well_formed df →
  process_data df = Ok out →
  ∃ fr ar vs,
    cols out !! "FinalAdjGPP_Rank" = Some fr
    ∧ cols out !! "ADP_Rank" = Some ar
    ∧ cols out !! "ValueScore" = Some vs
    ∧ length fr = nrows out ∧ length ar = nrows out ∧ length vs = nrows out
    ∧ Forall (fun c => ∃ z, c = CInt z ∧ 1 ≤ z ≤ Z.of_nat (nrows out)) fr
    ∧ Forall (fun c => ∃ z, c = CInt z ∧ 1 ≤ z ≤ Z.of_nat (nrows out)) ar
    ∧ Forall (fun c => ∃ z, c = CInt z
                            ∧ 1 - Z.of_nat (nrows out) ≤ z
                              ≤ Z.of_nat (nrows out) - 1) vs.
Proof.
  intros Hwf H.
  apply process_data_stages in H as (df1 & m1 & m2 & df4 & E1 & E4 & H).
  pose proof (wf_before_ranks df df1 m1 m2 Hwf E1) as Hwf3.
  rewrite !(add_value_alert_other _ _ _ H), !add_zscores_other by done.
  rewrite (nrows_add_value_alert _ _ H), nrows_add_zscores,
    (nrows_add_ranks _ _ E4).
  clear H. revert Hwf3 E4.
  generalize (select_rows m2 (select_rows m1 (ensure_required df1))).
  clear. intros d Hwf H.
  apply add_ranks_columns in H
    as (gpp & adp & fr & ar & vs & Eg & Ea & Ef & Er & Ev & -> & -> & ->).
  apply rank_min_range in Ef as [Lf Rf]. apply rank_min_range in Er as [La Ra].
  rewrite (Hwf _ _ Eg) in Lf, Rf. rewrite (Hwf _ _ Ea) in La, Ra.
  destruct (zipR_Forall2 _ _ _ _ (eq_trans La (eq_sym Lf)) Ev) as [Lv Hv].
  exists fr, ar, vs. repeat split; try done; [congruence|].
  apply Forall_lookup. intros i v Hi.
  destruct (lookup_lt_is_Some_2 ar i) as [a Ha].
  { rewrite <- Lv. by eapply lookup_lt_Some. }
  destruct (lookup_lt_is_Some_2 fr i) as [f Hf].
  { rewrite Lf, <- La, <- Lv. by eapply lookup_lt_Some. }
  specialize (Hv i a f v Ha Hf Hi).
  rewrite Forall_lookup in Rf, Ra.
  destruct (Rf i f Hf) as (zf & -> & ?). destruct (Ra i a Ha) as (za & -> & ?).
  cbn in Hv. injection Hv as <-. exists (wrap64 (za - zf)). split; [done|].
  pose proof (wrap64_within (za - zf) (Z.of_nat (nrows d) - 1)). lia.
Qed.

Lemma process_data_rank_range_witness :
  ∃ out fr ar vs,
    process_data late3 = Ok out
    ∧ cols out !! "FinalAdjGPP_Rank" = Some fr
    ∧ cols out !! "ADP_Rank" = Some ar
    ∧ cols out !! "ValueScore" = Some vs
    ∧ length fr = nrows out ∧ length ar = nrows out ∧ length vs = nrows out
    ∧ Forall (fun c => ∃ z, c = CInt z ∧ 1 ≤ z ≤ Z.of_nat (nrows out)) fr
    ∧ Forall (fun c => ∃ z, c = CInt z ∧ 1 ≤ z ≤ Z.of_nat (nrows out)) ar
    ∧ Forall (fun c => ∃ z, c = CInt z
                            ∧ 1 - Z.of_nat (nrows out) ≤ z
                              ≤ Z.of_nat (nrows out) - 1) vs.
Proof.
  destruct (process_data late3) as [out|e] eqn:E; [|by vm_compute in E].
  destruct (process_data_rank_range late3 out) as (fr & ar & vs & H);
    [|exact E|].
  - apply frame_well_formed. vm_compute. by repeat constructor.
  - exists out, fr, ar, vs. split; [reflexivity|exact H].
Defined.

(** ** Live score and stack score *)


(** X9: The live score never compounds: computed again over a table that
    already carries one, it is the score the table without it would get,
    whatever the earlier emphasis was.  In particular a rerun with the
    emphasis unchanged leaves the table as it is. *)
Theorem live_score_overwrites (df df1 : DataFrame) (e1 e2 : float) :
  calculate_live_score df e1 = Ok df1 →
  calculate_live_score df1 e2 = calculate_live_score df e2
  ∧ calculate_live_score df1 e1 = Ok df1.
Proof.
  intros H. unfold calculate_live_score in H.
  apply bind_Ok in H as (gpp & Eg & H). apply bind_Ok in H as (ls & El & H).
  injection H as <-.
  assert (∀ e, calculate_live_score (set_column "LiveScore" ls df) e
               = calculate_live_score df e) as Hsame.
  { intros e. unfold calculate_live_score.
    assert (column "FinalAdjGPP" (set_column "LiveScore" ls df)
            = column "FinalAdjGPP" df) as ->.
    { unfold column. by rewrite column_set_ne. }
    rewrite Eg, !bind_Ok_l.
    destruct (mapR (fun x => py_mul x (CFloat e)) gpp) as [ls'|]; [|done].
    rewrite !bind_Ok_l. by rewrite set_column_twice. }
  split; [apply Hsame|]. rewrite Hsame.
  unfold calculate_live_score. by rewrite Eg, bind_Ok_l, El, bind_Ok_l.
Qed.

Lemma live_score_overwrites_witness :
  ∃ df1, calculate_live_score board2 1.2 = Ok df1
         ∧ calculate_live_score df1 0.8 = calculate_live_score board2 0.8
         ∧ calculate_live_score df1 1.2 = Ok df1.
Proof.
  destruct (calculate_live_score board2 1.2) as [df1|e] eqn:E;
    [|by vm_compute in E].
  exists df1. split; [reflexivity|].
  exact (live_score_overwrites board2 df1 1.2 0.8 E).
Defined.

Lemma mapR_mul_one (xs : list float) :
  mapR (fun x => py_mul x (CFloat 1.0)) (CFloat <$> xs) = Ok (CFloat <$> xs).
Proof.
  induction xs as [|x xs IH]; [done|].
  rewrite !fmap_cons. cbn [mapR]. rewrite IH.
  cbn [py_mul as_num]. rewrite !bind_Ok_l. cbn [num_mul num_float cell_of_num].
  by rewrite float_mul_1_r.
Qed.

(** X10: At the emphasis 1.0 a session starts with, the live score of a float
    projection is the projection itself, bit for bit. *)
Theorem live_score_default (df : DataFrame) (xs : list float) :
  cols df !! "FinalAdjGPP" = Some (CFloat <$> xs) →
  calculate_live_score df 1.0 ≫= column "LiveScore" = Ok (CFloat <$> xs).
Proof.
  intros Hg. unfold calculate_live_score.
  rewrite (proj2 (column_Ok _ _ _) Hg), bind_Ok_l, mapR_mul_one, !bind_Ok_l.
  apply column_Ok, column_set_eq.
Qed.

Lemma live_score_default_witness :
  calculate_live_score board2 1.0 ≫= column "LiveScore"
  = Ok (CFloat <$> [100; 90.5]%float).
Proof. apply (live_score_default board2 [100; 90.5]%float). reflexivity. Defined.

Lemma stack_bonus_range (n : nat) : 0 ≤ stack_bonus n ≤ 10.
Proof.
  unfold stack_bonus. destruct (n =? 1)%nat; [lia|].
  destruct (n =? 2)%nat; lia.
Qed.

Lemma team_rank_bonus_range (fos : string → result float) (r : row) :
  0 ≤ team_rank_bonus fos r ≤ 3.
Proof.
  unfold team_rank_bonus, try_except.
  destruct (item "TeamRank" r) as [c|]; [|cbn; lia]. rewrite bind_Ok_l.
  destruct (py_float fos c) as [x|]; [|cbn; lia]. rewrite bind_Ok_l.
  destruct (PrimFloat.leb x 10); lia.
Qed.

Lemma finals_games_bonus_range (ios : string → result Z) (r : row) :
  0 ≤ finals_games_bonus ios r ≤ 4.
Proof.
  unfold finals_games_bonus, try_except.
  destruct (item "FinalsGames" r) as [c|]; [|cbn; lia]. rewrite bind_Ok_l.
  destruct (py_int ios c) as [n|]; [|cbn; lia]. rewrite bind_Ok_l.
  destruct (n =? 4); lia.
Qed.

Lemma finals_mult_bonus_range (fos : string → result float) (r : row) :
  0 ≤ finals_mult_bonus fos r ≤ 2.
Proof.
  unfold finals_mult_bonus, try_except.
  destruct (item "FinalsMult" r) as [c|]; [|cbn; lia]. rewrite bind_Ok_l.
  destruct (py_float fos c) as [x|]; [|cbn; lia]. rewrite bind_Ok_l.
  destruct (PrimFloat.leb 1.04 x); lia.
Qed.

(** X11: The stack score is a whole number from 0 to 19, whatever the three
    quality fields of the candidate hold (text, a missing value, nothing
    at all) and whatever the parsers make of text.  The only way the
    function can fail is [KeyError], on a roster that is not empty, when
    the candidate or the roster has no Team. *)
Theorem stack_score_total (float_of_str : string → result float)
  (int_of_str : string → result Z) (player_row : row)
  (my_roster_df : DataFrame) :
  match calculate_stack_score float_of_str int_of_str player_row my_roster_df
  with
  | Ok score => 0 ≤ score ≤ 19
  | Raise e =>
      e = KeyError ∧ df_empty my_roster_df = false
      ∧ (player_row !! "Team" = None ∨ cols my_roster_df !! "Team" = None)
  end.
Proof.
  unfold calculate_stack_score.
  destruct (df_empty my_roster_df); [lia|].
  unfold item, column.
  destruct (player_row !! "Team") as [t|]; [|cbn; by auto].
  rewrite bind_Ok_l.
  destruct (cols my_roster_df !! "Team") as [ts|]; [|cbn; by auto].
  rewrite bind_Ok_l.
  pose proof (stack_bonus_range (team_count t ts)).
  pose proof (team_rank_bonus_range float_of_str player_row).
  pose proof (finals_games_bonus_range int_of_str player_row).
  pose proof (finals_mult_bonus_range float_of_str player_row).
  lia.
Qed.

(** ** [app_web.py]: the calculator before the cleaning was added *)






Lemma original_zscores_other (df out : DataFrame) (c : string) :
  Original.add_zscores df = Ok out →
  c ≠ "zFinal" → c ≠ "zADP" → c ≠ "ValueZ" →
  nrows out = nrows df ∧ cols out !! c = cols df !! c.
Proof.
  unfold Original.add_zscores. intros H H1 H2 H3. inv_bind H. subst out.
  split; [done|]. by rewrite !column_set_ne.
Qed.

Lemma original_ensure_col_keeps (df : DataFrame) (cd : string * cell)
  (c : string) (s : series) :
  cols df !! c = Some s →
  nrows (Original.ensure_col df cd) = nrows df
  ∧ cols (Original.ensure_col df cd) !! c = Some s.
Proof.
  intros Hs. unfold Original.ensure_col, has_column.
  destruct (bool_decide (is_Some (cols df !! cd.1))) eqn:E; [done|].
  split; [done|]. unfold set_scalar. rewrite column_set_ne; [done|].
  intros <-. apply bool_decide_eq_false in E. apply E. by rewrite Hs.
Qed.

Lemma original_ensure_all_keeps (l : list (string * cell)) (df : DataFrame)
  (c : string) (s : series) :
  cols df !! c = Some s →
  nrows (foldl Original.ensure_col df l) = nrows df
  ∧ cols (foldl Original.ensure_col df l) !! c = Some s.
Proof.
  revert df. induction l as [|cd l IH]; intros df Hs; [done|]. cbn [foldl].
  destruct (original_ensure_col_keeps df cd c s Hs) as [Hn Hc].
  destruct (IH _ Hc) as [Hn' Hc']. split; [congruence|done].
Qed.

Lemma original_ensure_all_nrows (l : list (string * cell)) (df : DataFrame) :
  nrows (foldl Original.ensure_col df l) = nrows df.
Proof.
  revert df. induction l as [|cd l IH]; intros df; [done|]. cbn [foldl].
  rewrite IH. unfold Original.ensure_col.
  by destruct (has_column cd.1 df).
Qed.

(** X12: [app_web.py] drops no row and rewrites no cell: its result has the
    rows it was given, every column of the input that is not one of the
    seven computed ones is handed back as it came, and the ids it assigns
    are 0 .. n-1 without a gap. *)
Theorem original_keeps_rows (df out : DataFrame) :
  Original.process_data df = Ok out →
  nrows out = nrows df
  ∧ (∀ c s, c ∉ derived_cols → cols df !! c = Some s →
            cols out !! c = Some s)
  ∧ (has_column "ID" df = false →
     cols out !! "ID" = Some (CInt <$> (Z.of_nat <$> seq 0 (nrows df)))).
Proof.
  unfold Original.process_data. intros H.
  apply bind_Ok in H as (df1 & E1 & H).
  apply bind_Ok in H as (df2 & E2 & H).
  apply bind_Ok in H as (df3 & E3 & H).
  apply Ok_inj in H as <-.
  assert (Hpass : ∀ c s, c ∉ derived_cols →
            cols (ensure_id df) !! c = Some s →
            cols (foldl Original.ensure_col df3 Original.required_cols) !! c
            = Some s).
  { intros c s Hc Hs. apply original_ensure_all_keeps.
    pose proof (derived_cols_ne c Hc) as (_ & _ & _ & ? & ? & ? & ?).
    rewrite (add_value_alert_other _ _ _ E3) by done.
    destruct (original_zscores_other _ _ c E2) as [_ ->]; [done..|].
    by rewrite (add_ranks_other _ _ _ E1 Hc). }
  split; [|split].
  - rewrite original_ensure_all_nrows, (nrows_add_value_alert _ _ E3).
    destruct (original_zscores_other _ _ "ID" E2) as [-> _]; [done..|].
    by rewrite (nrows_add_ranks _ _ E1), nrows_ensure_id.
  - intros c s Hc Hs. apply Hpass; [done|].
    unfold ensure_id. destruct (has_column "ID" df) eqn:Eid; [done|].
    rewrite column_set_ne; [done|]. intros <-.
    unfold has_column in Eid. apply bool_decide_eq_false in Eid.
    apply Eid. by rewrite Hs.
  - intros Hid. apply Hpass; [by apply not_in_names|].
    by apply ensure_id_absent.
Qed.

Lemma original_keeps_rows_witness :
  ∃ out, Original.process_data flat2 = Ok out
         ∧ nrows out = 2%nat
         ∧ (∀ c s, c ∉ derived_cols → cols flat2 !! c = Some s →
                   cols out !! c = Some s)
         ∧ (has_column "ID" flat2 = false →
            cols out !! "ID" = Some (CInt <$> (Z.of_nat <$> seq 0 2))).
Proof.
  destruct (Original.process_data flat2) as [out|e] eqn:E;
    [|by vm_compute in E].
  exists out. split; [reflexivity|].
  exact (original_keeps_rows flat2 out E).
Defined.

Lemma mapR_elem {A B} (f : A → result B) (l : list A) (k : list B) (x : A) :
  mapR f l = Ok k → x ∈ l → ∃ y, f x = Ok y ∧ y ∈ k.
Proof.
  intros H%mapR_Forall2 Hx. apply list_elem_of_lookup in Hx as [i Hi].
  destruct (Forall2_lookup_l _ _ _ _ _ H Hi) as (y & Hy & Hf).
  exists y. split; [done|]. by eapply list_elem_of_lookup_2.
Qed.

(** A column with a missing value cannot be ranked and cast to whole
    numbers. *)
Lemma rank_of_missing_raises (asc : bool) (s ranks : series) (x : cell) :
  x ∈ s → isna x = true → rank_min asc s ≫= astype_int ≠ Ok ranks.
Proof.
  intros Hx Hna H. apply bind_Ok in H as (r & Er & Ea).
  unfold rank_min in Er.
  destruct (mapR_elem _ _ _ x Er Hx) as (o & Ho & Hin).
  rewrite Hna in Ho. injection Ho as <-.
  unfold astype_int in Ea.
  by destruct (mapR_elem _ _ _ None Ea Hin) as (c & Hc & _).
Qed.

(** X13: [app_web.py] cannot load a file in which a player has no ADP, or no
    projection: the cast of the ranks to whole numbers raises.  (The blank
    ADP is the case [app_web_fixed.py] fills in.) *)
Theorem original_rejects_missing (df : DataFrame) (c : string) (s : series)
  (x : cell) :
  c ∈ ["FinalAdjGPP"; "ADP"] →
  cols df !! c = Some s →
  x ∈ s →
  isna x = true →
  ∃ e, Original.process_data df = Raise e.
Proof.
  intros Hc Hs Hx Hna.
  destruct (Original.process_data df) as [out|e] eqn:E; [|by exists e].
  exfalso. unfold Original.process_data in E.
  apply bind_Ok in E as (df1 & E1 & _). clear out.
  unfold add_ranks in E1.
  apply bind_Ok in E1 as (gpp & Eg & E1).
  apply bind_Ok in E1 as (fr0 & Ef & E1).
  apply bind_Ok in E1 as (fr & Ef' & E1).
  apply bind_Ok in E1 as (adp & Ea & E1).
  apply bind_Ok in E1 as (ar0 & Er & E1).
  apply bind_Ok in E1 as (ar & Er' & _).
  apply column_Ok in Eg, Ea. rewrite column_set_ne in Ea by done.
  rewrite ensure_id_other in Eg, Ea by done.
  apply elem_of_cons in Hc as [->|Hc].
  - assert (gpp = s) as -> by congruence.
    apply (rank_of_missing_raises false s fr x Hx Hna).
    by rewrite Ef, bind_Ok_l.
  - apply list_elem_of_singleton in Hc as ->.
    assert (adp = s) as -> by congruence.
    apply (rank_of_missing_raises true s ar x Hx Hna).
    by rewrite Er, bind_Ok_l.
Qed.

Lemma original_rejects_missing_witness :
  ∃ e, Original.process_data late3 = Raise e.
Proof.
  apply (original_rejects_missing late3 "ADP"
           [CFloat 5; CFloat 12.5; CFloat nan] (CFloat nan)).
  - in_list.
  - reflexivity.
  - in_list.
  - reflexivity.
Defined.

(** ** The views of the board *)

Lemma isin_ints (ids zs : list Z) :
  isin (CInt <$> ids) (CInt <$> zs) = (fun z => bool_decide (z ∈ ids)) <$> zs.
Proof.
  unfold isin. rewrite <- list_fmap_compose. apply list_fmap_ext.
  intros _ z _. unfold compose. cbn [isna].
  induction ids as [|i ids IH].
  - cbn. symmetry. apply bool_decide_eq_false, not_elem_of_nil.
  - rewrite fmap_cons. cbn [existsb]. rewrite IH. cbn.
    destruct (Z.eqb_spec z i) as [->|Hne].
    + symmetry. apply bool_decide_eq_true. apply list_elem_of_here.
    + cbn. apply bool_decide_ext. rewrite elem_of_cons. tauto.
Qed.

Lemma sel_filter {A} (f : A → bool) (l : list A) :
  sel (f <$> l) l = filter (fun x => f x) l.
Proof.
  induction l as [|x l IH]; [done|]. rewrite fmap_cons. cbn [sel].
  rewrite IH. destruct (f x) eqn:E.
  - rewrite filter_cons_True; [done|]. by apply Is_true_true.
  - rewrite filter_cons_False; [done|]. by apply Is_true_false.
Qed.

(** Selecting the rows of a well-formed table by a mask computed from its
    integer ID column. *)
Lemma select_by_id (f : Z → bool) (df : DataFrame) (zs : list Z) :
  well_formed df →
  cols df !! "ID" = Some (CInt <$> zs) →
  cols (select_rows (f <$> zs) df) !! "ID"
  = Some (CInt <$> filter (fun z => f z) zs)
  ∧ (df_empty (select_rows (f <$> zs) df) = true
     ↔ filter (fun z => f z) zs = []).
Proof.
  intros Hwf Hid. split.
  - rewrite select_rows_column, Hid. cbn. by rewrite sel_fmap, sel_filter.
  - unfold df_empty. cbn [nrows cols select_rows].
    assert (length (sel (f <$> zs) (seq 0 (nrows df)))
            = length (filter (fun z => f z) zs)) as ->.
    { rewrite <- sel_filter. apply sel_length_eq.
      rewrite length_seq, <- (Hwf _ _ Hid). by rewrite length_fmap. }
    assert (bool_decide (sel (f <$> zs) <$> cols df = ∅) = false) as ->.
    { apply bool_decide_eq_false. intros H.
      apply (f_equal (fun m => m !! "ID")) in H.
      by rewrite lookup_fmap, Hid, lookup_empty in H. }
    rewrite orb_false_r, Nat.eqb_eq. apply length_zero_iff_nil.
Qed.

Lemma negb_fmap_fmap {A} (f : A → bool) (l : list A) :
  negb <$> (f <$> l) = (fun x => negb (f x)) <$> l.
Proof. by rewrite <- list_fmap_compose. Qed.

Lemma view_mask (view : view_mode) (df : DataFrame) (s : session)
  (zs : list Z) :
  cols df !! "ID" = Some (CInt <$> zs) →
  match view with
  | AvailableOnly => available_df df s
  | DraftedOnly => drafted_df df s
  | MyRoster => my_roster_df df s
  | AllPlayers => Ok (select_rows (shown_in AllPlayers s <$> zs) df)
  end = Ok (select_rows (shown_in view s <$> zs) df).
Proof.
  intros Hid. apply column_Ok in Hid.
  destruct view; unfold available_df, drafted_df, my_roster_df;
    rewrite ?Hid, ?bind_Ok_l; try done;
    unfold drafted_ids, roster_ids; rewrite isin_ints, ?negb_fmap_fmap;
    do 2 f_equal; apply list_fmap_ext; intros _ z _; cbn [shown_in].
  - rewrite <- bool_decide_not. apply bool_decide_ext.
    by rewrite elem_of_elements.
  - apply bool_decide_ext. by rewrite elem_of_elements.
Qed.

Lemma select_rows_all (df : DataFrame) :
  well_formed df → select_rows (replicate (nrows df) true) df = df.
Proof.
  intros Hwf.
  assert (∀ A (l : list A), sel (replicate (length l) true) l = l) as Hall.
  { intros A l. induction l as [|x l IH]; [done|]. cbn. by rewrite IH. }
  destruct df as [n cs]. unfold select_rows. cbn [nrows cols] in *. f_equal.
  - pose proof (Hall _ (seq 0 n)) as H. rewrite length_seq in H.
    by rewrite H, length_seq.
  - apply map_eq. intros c. rewrite lookup_fmap.
    destruct (cs !! c) as [l|] eqn:El; [|done]. cbn.
    specialize (Hwf c l El). cbn in Hwf. subst n. by rewrite Hall.
Qed.

(** X14: Each view shows the players it names, in the order of the table:
    "Available Only" those not drafted, "Drafted Only" those drafted, "My
    Roster" those on the roster, "All Players" everybody; and it shows
    nothing ([None]) exactly when there is no such player. *)
Theorem view_shows_its_players (view : view_mode) (df : DataFrame)
  (s : session) (zs : list Z) :
  well_formed df →
  cols df !! "ID" = Some (CInt <$> zs) →
  ∃ o, display_view view df s = Ok o
       ∧ match o with
         | Some t =>
             cols t !! "ID"
             = Some (CInt <$> filter (fun z => shown_in view s z) zs)
             ∧ filter (fun z => shown_in view s z) zs ≠ []
         | None => filter (fun z => shown_in view s z) zs = []
         end.
Proof.
  intros Hwf Hid.
  destruct (select_by_id (shown_in view s) df zs Hwf Hid) as [Hcol Hempty].
  pose proof (view_mask view df s zs Hid) as Hmask.
  assert (display_view view df s
          = if df_empty (select_rows (shown_in view s <$> zs) df)
            then Ok None
            else Ok (Some (select_rows (shown_in view s <$> zs) df))) as ->.
  { destruct view; unfold display_view, display_player_table;
      try (rewrite Hmask, bind_Ok_l; reflexivity).
    rewrite bind_Ok_l. change (shown_in AllPlayers s) with (fun _ : Z => true).
    assert ((fun _ : Z => true) <$> zs = replicate (nrows df) true) as ->.
    { rewrite <- (Hwf _ _ Hid), length_fmap. clear.
      induction zs as [|z zs IH]; [done|]. cbn. by rewrite <- IH. }
    by rewrite select_rows_all. }
  destruct (df_empty _) eqn:E.
  - exists None. split; [done|]. by apply Hempty.
  - eexists. split; [done|]. split; [done|].
    intros H. apply Hempty in H. congruence.
Qed.

Lemma lobby_well_formed : well_formed lobby.
Proof. apply frame_well_formed. by repeat constructor. Qed.

Lemma view_shows_its_players_witness :
  ∃ o, display_view AvailableOnly lobby taken7 = Ok o
       ∧ match o with
         | Some t =>
             cols t !! "ID"
             = Some (CInt <$> filter (fun z => shown_in AvailableOnly taken7 z)
                                [0; 1; 7])
             ∧ filter (fun z => shown_in AvailableOnly taken7 z) [0; 1; 7] ≠ []
         | None =>
             filter (fun z => shown_in AvailableOnly taken7 z) [0; 1; 7] = []
         end.
Proof.
  apply (view_shows_its_players AvailableOnly lobby taken7 [0; 1; 7]).
  - exact lobby_well_formed.
  - reflexivity.
Defined.

Lemma sel_true_fmap {A} (f : A → bool) (l : list A) :
  Forall (fun x => f x = true) (sel (f <$> l) l).
Proof.
  induction l as [|x l IH]; [done|]. rewrite fmap_cons. cbn [sel].
  destruct (f x) eqn:E; [by apply Forall_cons|done].
Qed.

Lemma sel_none {A B} (f : A → bool) (l : list A) (k : list B) :
  Forall (fun x => f x = true) l → sel (negb <$> (f <$> l)) k = [].
Proof.
  intros H. revert k. induction H as [|x l Hx _ IH]; intros [|y k]; try done.
  rewrite !fmap_cons, Hx. cbn. apply IH.
Qed.

Lemma isin_mono (X Y : list cell) (c : cell) :
  (∀ v, v ∈ X → v ∈ Y) →
  existsb (fun v => if isna c then isna v else py_eq c v) X = true →
  existsb (fun v => if isna c then isna v else py_eq c v) Y = true.
Proof.
  intros HXY. rewrite !existsb_exists. intros (v & Hv & Hm).
  exists v. split; [|done]. apply list_elem_of_In, HXY. by apply list_elem_of_In.
Qed.

(** Rows selected by membership in [X] are none of them outside [Y] when
    [X] lies within [Y]. *)
Lemma nothing_available (X Y : list cell) (df : DataFrame) (ids : series) :
  (∀ v, v ∈ X → v ∈ Y) →
  cols df !! "ID" = Some ids →
  ∃ ids',
    cols (select_rows (isin X ids) df) !! "ID" = Some ids'
    ∧ ∀ A (l : list A), sel (negb <$> isin Y ids') l = [].
Proof.
  intros HXY Hid. exists (sel (isin X ids) ids). split.
  - by rewrite select_rows_column, Hid.
  - intros A l. unfold isin at 1. apply sel_none.
    eapply Forall_impl; [apply sel_true_fmap|].
    intros c Hc. cbv beta in Hc. by eapply isin_mono.
Qed.

(** X15: In the views "Drafted Only" and "My Roster" nobody can be drafted: no
    row on display is still available, so the select box has no option and
    the two draft buttons do nothing. *)
Theorem no_pick_from_drafted_views (view : view_mode) (df t : DataFrame)
  (s : session) :
  view = DraftedOnly ∨ view = MyRoster →
  consistent s →
  display_view view df s = Ok (Some t) →
  ∃ a, available_df t s = Ok a ∧ nrows a = 0%nat ∧ df_empty a = true.
Proof.
  intros Hview [_ Hsub] H.
  assert (∃ X ids, (∀ v, v ∈ X → v ∈ drafted_ids s)
                   ∧ cols df !! "ID" = Some ids
                   ∧ t = select_rows (isin X ids) df) as (X & ids & HX & Hid & ->).
  { destruct Hview as [-> | ->]; unfold display_view, display_player_table in H;
      apply bind_Ok in H as (d & Ed & H);
      (destruct (df_empty d); [done|]); apply Ok_inj in H;
      injection H as ->.
    - unfold drafted_df in Ed. apply bind_Ok in Ed as (ids & Hid & Ed).
      apply column_Ok in Hid. apply Ok_inj in Ed as <-.
      by exists (drafted_ids s), ids.
    - unfold my_roster_df in Ed. apply bind_Ok in Ed as (ids & Hid & Ed).
      apply column_Ok in Hid. apply Ok_inj in Ed as <-.
      exists (roster_ids s), ids. split; [|done].
      intros v (z & -> & Hz)%list_elem_of_fmap.
      apply list_elem_of_fmap. exists z. split; [done|].
      apply elem_of_elements. by apply Hsub. }
  destruct (nothing_available X (drafted_ids s) df ids HX Hid)
    as (ids' & Hid' & Hnone).
  eexists. unfold available_df.
  rewrite (proj2 (column_Ok _ _ _) Hid'), bind_Ok_l. split; [done|].
  assert (nrows (select_rows (negb <$> isin (drafted_ids s) ids')
                   (select_rows (isin X ids) df)) = 0%nat) as Hn.
  { cbn [nrows select_rows]. by rewrite Hnone. }
  split; [done|]. unfold df_empty. by rewrite Hn.
Qed.

Lemma no_pick_from_drafted_views_witness :
  ∃ a, available_df (select_rows [false; false; true] lobby) taken7 = Ok a
       ∧ nrows a = 0%nat ∧ df_empty a = true.
Proof.
  apply (no_pick_from_drafted_views DraftedOnly lobby
           (select_rows [false; false; true] lobby) taken7).
  - by left.
  - split; [constructor|]. intros x Hx. by apply elem_of_nil in Hx.
  - vm_compute. reflexivity.
Defined.

Lemma isin_same_members (X Y : list cell) (s : series) :
  (∀ v, v ∈ X ↔ v ∈ Y) → isin X s = isin Y s.
Proof.
  intros HXY. unfold isin. apply list_fmap_ext. intros _ c _.
  apply eq_true_iff_eq. split; apply isin_mono; intros v; apply HXY.
Qed.

(** X16: The roster table, and with it the two equity meters, depend on who is
    on the roster and not on the order of the picks: the rows are taken in
    the order of the table. *)
Theorem equity_ignores_pick_order (df : DataFrame) (s1 s2 : session) :
  (∀ id, id ∈ my_roster s1 ↔ id ∈ my_roster s2) →
  my_roster_df df s1 = my_roster_df df s2
  ∧ calculate_equity <$> my_roster_df df s1
    = calculate_equity <$> my_roster_df df s2.
Proof.
  intros Hsame.
  assert (my_roster_df df s1 = my_roster_df df s2) as ->; [|done].
  unfold my_roster_df. destruct (column "ID" df) as [ids|]; [|done].
  rewrite !bind_Ok_l. do 2 f_equal. apply isin_same_members.
  intros v. unfold roster_ids. rewrite !list_elem_of_fmap.
  split; intros (z & -> & Hz); exists z; (split; [done|]); by apply Hsame.
Qed.

Lemma equity_ignores_pick_order_witness :
  my_roster_df lobby (mkSession {[0; 7]} [0; 7])
  = my_roster_df lobby (mkSession {[0; 7]} [7; 0])
  ∧ calculate_equity <$> my_roster_df lobby (mkSession {[0; 7]} [0; 7])
    = calculate_equity <$> my_roster_df lobby (mkSession {[0; 7]} [7; 0]).
Proof.
  apply (equity_ignores_pick_order lobby).
  intros id. cbn [my_roster]. rewrite !elem_of_cons, !elem_of_nil. tauto.
Defined.

(** ** The filters *)

Lemma select_rows_twice (m1 m2 : list bool) :
  ∃ m, ∀ df, select_rows m2 (select_rows m1 df) = select_rows m df.
Proof.
  destruct (sel_sel m1 m2) as [m Hm]. exists m. intros df.
  unfold select_rows. cbn [nrows cols]. f_equal.
  - rewrite <- Hm. apply sel_length_eq. by rewrite length_seq.
  - rewrite <- map_fmap_compose. apply map_fmap_ext. intros c l _.
    apply Hm.
Qed.

Lemma rows_of_trans (a b c : DataFrame) :
  rows_of a b → rows_of b c → rows_of a c.
Proof.
  intros [->|[m1 ->]] [->|[m2 ->]]; try (by left); try (right; by eexists).
  right. destruct (select_rows_twice m1 m2) as [m Hm]. exists m. apply Hm.
Qed.

Lemma keep_isin_rows (c : string) (selection : list cell) (df out : DataFrame) :
  keep_isin c selection df = Ok out → rows_of df out.
Proof.
  unfold keep_isin. intros H. apply bind_Ok in H as (s & _ & H).
  apply Ok_inj in H as <-. right. by eexists.
Qed.

Lemma keep_chosen_rows (c : string) (selection : list cell)
  (df out : DataFrame) :
  keep_chosen c selection df = Ok out → rows_of df out.
Proof.
  unfold keep_chosen. destruct (_ && _).
  - apply keep_isin_rows.
  - intros <-%Ok_inj. by left.
Qed.

(** X17: Whatever the five filters are set to, and whatever the name search
    matches, the filtered table is a selection of rows of the table: no
    filter adds a row, reorders rows or changes a cell. *)
Theorem filters_select_rows
  (str_contains : string → series → result (list bool))
  (f : filters) (df out : DataFrame) :
  well_formed df →
  apply_filters str_contains f df = Ok out →
  ∃ m, out = select_rows m df.
Proof.
  intros Hwf H.
  assert (rows_of df out) as [->|Hm]; [|by exists (replicate (nrows df) true);
                                        rewrite select_rows_all|done].
  unfold apply_filters in H.
  apply bind_Ok in H as (d1 & E1 & H).
  apply bind_Ok in H as (d2 & E2 & H).
  apply bind_Ok in H as (d3 & E3 & H).
  apply bind_Ok in H as (d4 & E4 & H).
  apply keep_chosen_rows in E1, E2.
  assert (rows_of d2 d3) as E3'.
  { destruct (rank_tier_choice f);
      try (apply Ok_inj in E3 as <-; by left);
      apply bind_Ok in E3 as (tr & _ & E3);
      apply bind_Ok in E3 as (m & _ & E3);
      apply Ok_inj in E3 as <-; right; by eexists. }
  assert (rows_of d3 d4) as E4'.
  { destruct (bool_decide (finals_games_filter f = []));
      [apply Ok_inj in E4 as <-; by left|].
    by eapply keep_isin_rows. }
  assert (rows_of d4 out) as E5.
  { destruct (bool_decide (search_term f = EmptyString));
      [apply Ok_inj in H as <-; by left|].
    apply bind_Ok in H as (names & _ & H).
    apply bind_Ok in H as (m & _ & H).
    apply Ok_inj in H as <-. right. by eexists. }
  eauto using rows_of_trans.
Qed.

Lemma filters_select_rows_witness :
  ∃ out m,
    apply_filters (fun _ _ => Raise ValueError)
      (mkFilters [CStr "G"; CStr "C"] [] Tier1_5 [CInt 4] EmptyString) lobby
    = Ok out
    ∧ out = select_rows m lobby.
Proof.
  destruct (apply_filters (fun _ _ => Raise ValueError)
              (mkFilters [CStr "G"; CStr "C"] [] Tier1_5 [CInt 4] EmptyString)
              lobby) as [out|e] eqn:E; [|vm_compute in E; discriminate].
  destruct (filters_select_rows _ _ lobby out lobby_well_formed E) as [m Hm].
  exists out, m. split; [reflexivity|exact Hm].
Defined.

Lemma SFcompare_refl (s : spec_float) :
  s ≠ S754_nan → SFcompare s s = Some Eq.
Proof.
  destruct s as [b|b| |b m e]; try done; try (by destruct b).
  intros _. unfold SFcompare.
  rewrite Z.compare_refl, Pos.compare_cont_refl. by destruct b.
Qed.

Lemma float_eqb_refl (x : float) : is_nan x = false → PrimFloat.eqb x x = true.
Proof.
  intros Hx%not_nan_spec. rewrite FloatAxioms.eqb_spec. unfold SFeqb.
  by rewrite SFcompare_refl.
Qed.

Lemma py_eq_refl (c : cell) : isna c = false → py_eq c c = true.
Proof.
  destruct c as [z|x|s|b]; cbn; intros Hc.
  - apply Z.eqb_refl.
  - by apply float_eqb_refl.
  - apply String.eqb_refl.
  - apply Z.eqb_refl.
Qed.

Lemma isin_all (values : list cell) (s : series) :
  (∀ c, c ∈ s → c ∈ values) → isin values s = replicate (length s) true.
Proof.
  intros Hall. unfold isin. induction s as [|c s IH]; [done|].
  rewrite fmap_cons. cbn [length replicate]. f_equal.
  - apply existsb_exists. exists c. split.
    + apply list_elem_of_In, Hall. apply list_elem_of_here.
    + destruct (isna c) eqn:Ec; [done|]. by apply py_eq_refl.
  - apply IH. intros c' Hc'. apply Hall. by apply list_elem_of_further.
Qed.

Lemma keep_chosen_all (c : string) (selection : list cell) (df : DataFrame) :
  has_all selection = true ∨ selection = [] →
  keep_chosen c selection df = Ok df.
Proof.
  unfold keep_chosen. intros [-> | ->]; [done|].
  by rewrite bool_decide_eq_true_2, andb_false_r.
Qed.

(** X18: With the filters as the page first shows them ('All' positions, 'All'
    teams, every rank tier, every value of FinalsGames ticked, an empty
    search box) the board is the whole table; so it is with a position or
    team selection that is empty or includes 'All'. *)
Theorem filters_untouched_keep_all
  (str_contains : string → series → result (list bool))
  (df : DataFrame) (positions teams unique_finals : list cell)
  (finals_games : series) :
  well_formed df →
  has_all positions = true ∨ positions = [] →
  has_all teams = true ∨ teams = [] →
  cols df !! "FinalsGames" = Some finals_games →
  (∀ c, c ∈ finals_games → c ∈ unique_finals) →
  apply_filters str_contains
    (mkFilters positions teams TierAll unique_finals EmptyString) df
  = Ok df.
Proof.
  intros Hwf Hp Ht Hfg Hall. unfold apply_filters.
  cbn [position_filter team_filter rank_tier_choice finals_games_filter
       search_term].
  rewrite (keep_chosen_all _ _ _ Hp), bind_Ok_l.
  rewrite (keep_chosen_all _ _ _ Ht), !bind_Ok_l.
  rewrite (bool_decide_eq_true_2 (EmptyString = EmptyString)) by done.
  destruct (bool_decide (unique_finals = [])); [done|].
  unfold keep_isin. rewrite (proj2 (column_Ok _ _ _) Hfg), !bind_Ok_l.
  by rewrite (isin_all _ _ Hall), (Hwf _ _ Hfg), select_rows_all.
Qed.

Lemma filters_untouched_keep_all_witness :
  apply_filters (fun _ _ => Raise ValueError)
    (mkFilters [CStr "All"] [CStr "All"] TierAll [CInt 3; CInt 4] EmptyString)
    lobby
  = Ok lobby.
Proof.
  apply (filters_untouched_keep_all _ lobby _ _ _ [CInt 4; CInt 3; CInt 4]).
  - exact lobby_well_formed.
  - by left.
  - by left.
  - reflexivity.
  - intros c Hc. repeat (apply elem_of_cons in Hc as [->|Hc]; [in_list|]).
    by apply elem_of_nil in Hc.
Defined.





(** ** The script as a whole *)

Lemma processed_live_score (t t' : DataFrame) (e : float) :
  processed t → calculate_live_score t e = Ok t' → processed t'.
Proof.
  intros (raw & out & Hp & Hn & Hrows & Hcols) H.
  apply live_score_frame in H as (gpp & ls & _ & _ & ->).
  exists raw, out. repeat split; try done.
  intros c Hc. rewrite column_set_ne by done. by apply Hcols.
Qed.

Lemma upload_ok (raw : DataFrame) (st : app) :
  ss_df st = None → app_ok st → app_ok (upload raw st).
Proof.
  intros Hnone Hok. unfold upload.
  destruct (process_data raw) as [out|] eqn:Ep; [|done].
  destruct (nrows out =? 0)%nat eqn:En; [done|].
  destruct Hok as (Hflag & Hdraft & Hcons & Htab).
  apply Nat.eqb_neq in En.
  split; [|split; [|split]]; cbn [ss_df ss_data_loaded ss_draft].
  - split; [intros _; by eexists|done].
  - done.
  - done.
  - intros t [= <-]. by exists raw, out.
Qed.

Lemma main_ok (st : app) (a : action) : app_ok st → app_ok (main st a).
Proof.
  intros Hok. unfold main.
  destruct (ss_df st) as [t|] eqn:Et.
  - destruct (calculate_live_score t (ss_finals_emphasis st)) as [t'|] eqn:El;
      [|done].
    destruct Hok as (Hflag & Hdraft & Hcons & Htab).
    assert (processed t') as Ht'
      by (eapply processed_live_score; [by apply Htab|exact El]).
    assert (ss_data_loaded st = true) as Hl by (apply Hflag; by rewrite Et).
    assert (∀ e d, consistent d →
              app_ok (mkApp (Some t') (ss_data_loaded st) e d)) as Hsome.
    { intros e d Hd.
      split; [|split; [|split]]; cbn [ss_df ss_data_loaded ss_draft].
      - split; [intros _; by eexists|done].
      - done.
      - done.
      - by intros ? [= <-]. }
    destruct a as [raw|e|ev]; [by apply Hsome..|].
    destruct ev; try (apply Hsome; by apply consistent_step).
    split; [|split; [|split]]; cbn [ss_df ss_data_loaded ss_draft].
    + split; [done|by intros []].
    + done.
    + apply consistent_init.
    + done.
  - destruct a as [raw|e|ev]; try done. apply upload_ok; [|done].
    exact Et.
Qed.

Lemma runs_ok (acts : list action) (st : app) :
  app_ok st → app_ok (runs acts st).
Proof.
  revert st. induction acts as [|a acts IH]; intros st Hok; [done|].
  apply IH. by apply main_ok.
Qed.

Lemma new_app_ok : app_ok new_app.
Proof.
  split; [|split; [|split]]; cbn [new_app ss_df ss_data_loaded ss_draft].
  - split; [done|by intros []].
  - done.
  - apply consistent_init.
  - done.
Qed.

(** X20: Through any sequence of runs from a fresh session, the flag
    [data_loaded] is set exactly when a table is stored, without a table
    there is no draft (so the picks made on one table never carry over to
    the next upload), and the roster stays free of duplicates and within
    the drafted set. *)
Theorem draft_belongs_to_table (acts : list action) :
  (ss_data_loaded (runs acts new_app) = true
   ↔ is_Some (ss_df (runs acts new_app)))
  ∧ (ss_df (runs acts new_app) = None →
     ss_draft (runs acts new_app) = init_session_state)
  ∧ consistent (ss_draft (runs acts new_app)).
Proof.
  destruct (runs_ok acts new_app new_app_ok) as (H1 & H2 & H3 & _). eauto.
Qed.

(** X21: The table the script works on is always a result of [process_data]
    with at least one row in it, apart from the LiveScore column the runs
    write: the raw upload is never stored. *)
Theorem stored_table_is_processed (acts : list action) (t : DataFrame) :
  ss_df (runs acts new_app) = Some t →
  ∃ raw out,
    process_data raw = Ok out
    ∧ nrows out ≠ 0%nat
    ∧ nrows t = nrows out
    ∧ ∀ c, c ≠ "LiveScore" → cols t !! c = cols out !! c.
Proof.
  intros Ht. destruct (runs_ok acts new_app new_app_ok) as (_ & _ & _ & H).
  by apply H.
Qed.

Lemma stored_table_is_processed_witness :
  ∃ t raw out,
    ss_df (runs [UploadFile late3] new_app) = Some t
    ∧ process_data raw = Ok out
    ∧ nrows out ≠ 0%nat
    ∧ nrows t = nrows out
    ∧ ∀ c, c ≠ "LiveScore" → cols t !! c = cols out !! c.
Proof.
  destruct (ss_df (runs [UploadFile late3] new_app)) as [t|] eqn:E;
    [|vm_compute in E; discriminate].
  destruct (stored_table_is_processed [UploadFile late3] t E)
    as (raw & out & H).
  exists t, raw, out. split; [reflexivity|exact H].
Defined.

Lemma mapR_mul_floats (xs : list float) (e : float) :
  mapR (fun x => py_mul x (CFloat e)) (CFloat <$> xs)
  = Ok (CFloat <$> ((fun x => (x * e)%float) <$> xs)).
Proof.
  induction xs as [|x xs IH]; [done|].
  rewrite !fmap_cons. cbn [mapR]. rewrite IH.
  cbn [py_mul as_num]. rewrite !bind_Ok_l.
  by cbn [num_mul num_float cell_of_num].
Qed.

Lemma live_score_floats (df : DataFrame) (xs : list float) (e : float) :
  cols df !! "FinalAdjGPP" = Some (CFloat <$> xs) →
  calculate_live_score df e
  = Ok (set_column "LiveScore"
          (CFloat <$> ((fun x => (x * e)%float) <$> xs)) df).
Proof.
  intros Hg. unfold calculate_live_score.
  by rewrite (proj2 (column_Ok _ _ _) Hg), bind_Ok_l, mapR_mul_floats,
    bind_Ok_l.
Qed.

(** X22: A move of the emphasis slider reaches the live scores one run late.
    The run in which the slider is moved to [e] writes the scores at the
    emphasis stored before and only then stores [e]; the scores at [e]
    are written by the next run, whatever sets it off (short of "Upload
    New Data", which drops the table). *)
Theorem slider_acts_one_run_late (st : app) (t : DataFrame) (xs : list float)
  (e : float) (a : action) :
  ss_df st = Some t →
  cols t !! "FinalAdjGPP" = Some (CFloat <$> xs) →
  a ≠ Press UploadNewData →
  live_scores (main st (MoveSlider e))
  = Some (CFloat <$> ((fun x => (x * ss_finals_emphasis st)%float) <$> xs))
  ∧ live_scores (main (main st (MoveSlider e)) a)
    = Some (CFloat <$> ((fun x => (x * e)%float) <$> xs)).
Proof.
  intros Ht Hg Ha.
  assert (main st (MoveSlider e)
          = mkApp (Some (set_column "LiveScore"
                           (CFloat <$> ((fun x => (x * ss_finals_emphasis st)%float)
                                          <$> xs)) t))
              (ss_data_loaded st) e (ss_draft st)) as ->.
  { unfold main. by rewrite Ht, (live_score_floats _ _ _ Hg). }
  split; [unfold live_scores; cbn [ss_df mbind option_bind];
          apply column_set_eq|].
  unfold main at 1. cbn [ss_df ss_finals_emphasis ss_data_loaded ss_draft].
  rewrite (live_score_floats _ xs e)
    by (rewrite column_set_ne by done; exact Hg).
  rewrite set_column_twice.
  assert (∀ l ef d,
            live_scores (mkApp (Some (set_column "LiveScore" l t))
                           (ss_data_loaded st) ef d) = Some l) as Hl.
  { intros. unfold live_scores. cbn [ss_df mbind option_bind].
    apply column_set_eq. }
  destruct a as [raw|e'|ev]; [apply Hl..|].
  destruct ev; try apply Hl. done.
Qed.

Lemma slider_acts_one_run_late_witness :
  live_scores (main (mkApp (Some board2) true 1.0 init_session_state)
                 (MoveSlider 1.2))
  = Some (CFloat <$> ((fun x => (x * 1.0)%float) <$> [100; 90.5]%float))
  ∧ live_scores
      (main (main (mkApp (Some board2) true 1.0 init_session_state)
               (MoveSlider 1.2)) (Press UndoLastPick))
    = Some (CFloat <$> ((fun x => (x * 1.2)%float) <$> [100; 90.5]%float)).
Proof.
  apply (slider_acts_one_run_late
           (mkApp (Some board2) true 1.0 init_session_state) board2
           [100; 90.5]%float 1.2 (Press UndoLastPick)).
  - reflexivity.
  - reflexivity.
  - discriminate.
Defined.

(** ** The session store *)

Lemma init_key_keeps (k k' : string) (d v : SessionStore.value)
  (st : gmap string SessionStore.value) :
  st !! k' = Some v → SessionStore.init_key k d st !! k' = Some v.
Proof.
  intros Hv. unfold SessionStore.init_key.
  destruct (st !! k) eqn:Ek; [done|].
  rewrite lookup_insert_ne; [done|]. intros ->. congruence.
Qed.

Lemma init_key_present (k : string) (d : SessionStore.value)
  (st : gmap string SessionStore.value) :
  is_Some (SessionStore.init_key k d st !! k).
Proof.
  unfold SessionStore.init_key. destruct (st !! k) eqn:Ek.
  - by rewrite Ek.
  - rewrite lookup_insert_eq. by eexists.
Qed.

Lemma init_key_other (k k' : string) (d : SessionStore.value)
  (st : gmap string SessionStore.value) :
  k' ≠ k → SessionStore.init_key k d st !! k' = st !! k'.
Proof.
  intros Hne. unfold SessionStore.init_key.
  destruct (st !! k); [done|]. by apply lookup_insert_ne.
Qed.

Lemma init_key_set (k : string) (d : SessionStore.value)
  (st : gmap string SessionStore.value) :
  is_Some (st !! k) → SessionStore.init_key k d st = st.
Proof. intros [v Hv]. unfold SessionStore.init_key. by rewrite Hv. Qed.

Lemma init_key_stays (k k' : string) (d : SessionStore.value)
  (st : gmap string SessionStore.value) :
  is_Some (st !! k') → is_Some (SessionStore.init_key k d st !! k').
Proof. intros [v Hv]. exists v. by apply init_key_keeps. Qed.

(** X23: [init_session_state] runs at the top of every run of the script.  It
    never replaces a value the session already holds (so a rerun keeps the
    draft, the emphasis and the table), leaves every other key alone, makes
    the five keys present, and a second call changes nothing.  In a new
    session it sets up an empty draft, the emphasis 1.0 and no table. *)
Theorem init_session_state_keeps (st : gmap string SessionStore.value) :
  (∀ k v, st !! k = Some v →
          SessionStore.init_session_state st !! k = Some v)
  ∧ (∀ k, k ∉ SessionStore.session_keys →
          SessionStore.init_session_state st !! k = st !! k)
  ∧ Forall (fun k => is_Some (SessionStore.init_session_state st !! k))
      SessionStore.session_keys
  ∧ SessionStore.init_session_state (SessionStore.init_session_state st)
    = SessionStore.init_session_state st
  ∧ SessionStore.init_session_state ∅
    = list_to_map
        [ ("drafted_players", SessionStore.VSet ∅);
          ("my_roster", SessionStore.VList []);
          ("finals_emphasis", SessionStore.VFloat 1.0);
          ("data_loaded", SessionStore.VBool false);
          ("df", SessionStore.VNone) ].
Proof.
  assert (Hall : Forall (fun k => is_Some
                           (SessionStore.init_session_state st !! k))
                   SessionStore.session_keys).
  { unfold SessionStore.init_session_state, SessionStore.session_keys.
    repeat (apply Forall_cons; split;
            [repeat first [apply init_key_present | apply init_key_stays]|]).
    apply Forall_nil_2. }
  split; [|split; [|split; [|split]]].
  - intros k v Hv. unfold SessionStore.init_session_state.
    by do 5 apply init_key_keeps.
  - intros k Hk. unfold SessionStore.init_session_state.
    rewrite !init_key_other; [done|..];
      intros ->; apply Hk; unfold SessionStore.session_keys; in_list.
  - exact Hall.
  - unfold SessionStore.session_keys in Hall.
    repeat (apply Forall_cons in Hall as [? Hall]).
    generalize dependent (SessionStore.init_session_state st). intros st' **.
    unfold SessionStore.init_session_state.
    rewrite (init_key_set "drafted_players") by done.
    rewrite (init_key_set "my_roster") by done.
    rewrite (init_key_set "finals_emphasis") by done.
    rewrite (init_key_set "data_loaded") by done.
    by rewrite (init_key_set "df").
  - vm_compute. reflexivity.
Qed.
